(** * search_utilities: a query layer over a question-and-answer forum

    A shallow embedding of [search_utilities.py].  Every function of the
    module sends one parameterised SQL query through a database cursor and
    hands back a generator over the cursor's rows.  The SQL text of each
    query is embedded as a Rocq function from the database to its rows,
    built from a few relational combinators ([SELECT]/[INNER_JOIN]/[WHERE]/
    [ORDER_BY]/[DISTINCT]/[SUM]) that follow PostgreSQL's semantics,
    three-valued logic included; the Python around the query is embedded
    statement by statement. *)

From stdpp Require Import base decidable option list sorting strings gmap.

Local Open Scope Z_scope.
#[local] Set Warnings "-clear-no-such-hyp".

(** ** SQL values and three-valued logic *)

(** A column value is an integer or NULL.  Identifiers, type tags, scores and
    reputations are integers; a timestamp is the integer PostgreSQL stores
    for it.  Python receives NULL as [None] and an integer as an [int], which
    is the same type again. *)
Abbreviation sqlval := (option Z).
Abbreviation NULL := (@None Z).

(** The truth value of an SQL condition: true, false, or unknown ([None]). *)
Abbreviation tribool := (option bool).

Definition sql_cmp (op : Z → Z → bool) (a b : sqlval) : tribool :=
  match a, b with
  | Some x, Some y => Some (op x y)
  | _, _ => None
  end.

Definition sql_eq : sqlval → sqlval → tribool := sql_cmp Z.eqb.
Definition sql_gt : sqlval → sqlval → tribool := sql_cmp Z.gtb.
Definition sql_lt : sqlval → sqlval → tribool := sql_cmp Z.ltb.

Definition sql_and (p q : tribool) : tribool :=
  match p, q with
  | Some false, _ | _, Some false => Some false
  | Some true, Some true => Some true
  | _, _ => None
  end.

Infix "=ₛ" := sql_eq (at level 70, no associativity).
Infix ">ₛ" := sql_gt (at level 70, no associativity).
Infix "<ₛ" := sql_lt (at level 70, no associativity).
Infix "AND" := sql_and (at level 75, right associativity).

(** A row passes a WHERE or ON condition only when the condition is true:
    false and unknown both reject it. *)
Definition holds (p : tribool) : bool :=
  match p with
  | Some true => true
  | _ => false
  end.

(** [GREATEST] ignores NULL arguments and is NULL only when all are. *)
Definition GREATEST (a b : sqlval) : sqlval :=
  match a, b with
  | Some x, Some y => Some (Z.max x y)
  | Some x, None => Some x
  | None, _ => b
  end.

(** The order of [ORDER BY ... ASC]: integers by [≤], NULLs last. *)
Definition sql_le (a b : sqlval) : Prop :=
  match a, b with
  | _, None => True
  | None, Some _ => False
  | Some x, Some y => x ≤ y
  end.

Global Instance sql_le_dec a b : Decision (sql_le a b).
Proof. destruct a, b; simpl; apply _. Defined.

(** ** The schema *)

(** Modelled from the spec: the schema is owned by the database and is not
    part of the repository; the spec gives it as
    [Post(id, owner_user_id, post_type_id, parent_id, creation_date, score)]
    and [se_user(id, reputation)].  No column is assumed NOT NULL and no key
    is assumed unique. *)
Module Post.
Record t := mk {
  id : sqlval;
  owner_user_id : sqlval;
  post_type_id : sqlval;
  parent_id : sqlval;
  creation_date : sqlval;
  score : sqlval
}.
Global Instance eq_dec : EqDecision t.
Proof. solve_decision. Defined.
End Post.

Module se_user.
Record t := mk {
  id : sqlval;
  reputation : sqlval
}.
Global Instance eq_dec : EqDecision t.
Proof. solve_decision. Defined.
End se_user.

Record Database := {
  table_Post : list Post.t;
  table_se_user : list se_user.t
}.

(** ** Relational combinators *)

(** Without an ORDER BY the store returns the selected rows in an order of
    its choosing; here it is the order of the table.  Only statements that
    hold up to that order (membership, multisets, permutations) say
    something about two executions. *)
Definition WHERE {A} (cond : A → tribool) (rows : list A) : list A :=
  filter (λ r, holds (cond r)) rows.

Definition INNER_JOIN {A B} (left : list A) (right : list B)
    (on : A → B → tribool) : list (A * B) :=
  a ← left; b ← WHERE (on a) right; [(a, b)].

Definition SELECT {A B} (columns : A → B) (rows : list A) : list B :=
  columns <$> rows.

(** Rows with equal keys come out in an order the store chooses; here it is
    the order a merge sort leaves them in. *)
Definition ORDER_BY {A} (key : A → sqlval) (rows : list A) : list A :=
  merge_sort (λ r1 r2, sql_le (key r1) (key r2)) rows.

(** [SUM] skips NULLs and is NULL when there is no non-NULL input. *)
Definition SUM {A} (column : A → sqlval) (rows : list A) : sqlval :=
  match omap column rows with
  | [] => NULL
  | x :: xs => Some (foldr Z.add 0 (x :: xs))
  end.

(** [SELECT DISTINCT]: NULLs count as equal to each other. *)
Definition DISTINCT (rows : list sqlval) : list sqlval := remove_dups rows.

(** ** Cursors *)

(** A cursor is bound to a database and holds the rows of the query it ran
    last.  [cursor.execute] replaces those rows; iterating the cursor
    ([for result in cursor]) hands them out in order.  A generator returned
    by one of the functions below is modelled by the list of what it yields
    when it is consumed before the cursor runs another query. *)
Record Cursor (R : Type) := {
  connection : Database;
  result_set : list R
}.
Arguments connection {R} _.
Arguments result_set {R} _.

Definition execute {R R' : Type} (query : Database → list R')
    (cursor : Cursor R) : Cursor R' :=
  {| connection := connection cursor;
     result_set := query (connection cursor) |}.

Definition iterate {R : Type} (cursor : Cursor R) : list R :=
  result_set cursor.

(** [cursor.fetchone()]: the next row, or [None] when there is none left. *)
Definition fetchone {R : Type} (cursor : Cursor R) : option R :=
  head (result_set cursor).

(** ** TimeBin *)

(** [TimeBin = namedtuple('TimeBin', 'start end')]; the second field is
    spelled [end_] because [end] is reserved. *)
Record TimeBin := {
  start : Z;
  end_ : Z
}.

(** ** The query functions *)

Section queries.
Context {R : Type}.

(** SELECT id, owner_user_id FROM Post WHERE post_type_id = %(post_type)s *)
Definition posts_by_type_query (post_type : Z) (db : Database)
    : list (sqlval * sqlval) :=
  SELECT (λ p, (Post.id p, Post.owner_user_id p))
    (WHERE (λ p, Post.post_type_id p =ₛ Some post_type)
      (table_Post db)).

Definition posts_by_type (cursor : Cursor R) (post_type : option Z)
    : list (sqlval * sqlval) :=
  let post_type := match post_type with None => 1 | Some t => t end in
  let cursor := execute (posts_by_type_query post_type) cursor in
  (λ result, (result.1, result.2)) <$> iterate cursor.

(** SELECT id FROM Post
    WHERE creation_date > %(start)s AND creation_date < %(end)s *)
Definition posts_within_timebin_query (start_ end_ : Z) (db : Database)
    : list sqlval :=
  SELECT Post.id
    (WHERE (λ p, Post.creation_date p >ₛ Some start_
                 AND Post.creation_date p <ₛ Some end_)
      (table_Post db)).

Definition posts_within_timebin (cursor : Cursor R) (timebin : TimeBin)
    : list sqlval :=
  let cursor :=
    execute (posts_within_timebin_query (start timebin) (end_ timebin))
      cursor in
  (λ result, result) <$> iterate cursor.

(** SELECT id FROM Post WHERE owner_user_id = %(user_id)s *)
Definition posts_by_user_query (user_id : Z) (db : Database)
    : list sqlval :=
  SELECT Post.id
    (WHERE (λ p, Post.owner_user_id p =ₛ Some user_id)
      (table_Post db)).

(** SELECT id FROM Post WHERE owner_user_id = %(user_id)s
    AND creation_date > %(start)s AND creation_date < %(end)s *)
Definition posts_by_user_timebin_query (user_id start_ end_ : Z)
    (db : Database) : list sqlval :=
  SELECT Post.id
    (WHERE (λ p, Post.owner_user_id p =ₛ Some user_id
                 AND Post.creation_date p >ₛ Some start_
                 AND Post.creation_date p <ₛ Some end_)
      (table_Post db)).

Definition posts_by_user (cursor : Cursor R) (user_id : Z)
    (timebin : option TimeBin) : list sqlval :=
  let cursor :=
    match timebin with
    | None => execute (posts_by_user_query user_id) cursor
    | Some timebin =>
        execute (posts_by_user_timebin_query user_id
                   (start timebin) (end_ timebin)) cursor
    end in
  (λ result, result) <$> iterate cursor.

(** SELECT id FROM se_user WHERE reputation > %(threshold)s *)
Definition users_above_threshold_query (threshold : Z) (db : Database)
    : list sqlval :=
  SELECT se_user.id
    (WHERE (λ u, se_user.reputation u >ₛ Some threshold)
      (table_se_user db)).

Definition users_above_threshold (cursor : Cursor R) (threshold : Z)
    : list sqlval :=
  let cursor := execute (users_above_threshold_query threshold) cursor in
  (λ result, result) <$> iterate cursor.

(** SELECT DISTINCT t1.owner_user_id
    FROM Post t1 INNER JOIN Post t2 ON t1.parent_id = t2.id
    WHERE t1.post_type_id = 2 AND t2.post_type_id = 1
    AND t2.id = %(post_id)s *)
Definition users_in_post_query (post_id : Z) (db : Database)
    : list sqlval :=
  DISTINCT
    (SELECT (λ '(t1, t2), Post.owner_user_id t1)
      (WHERE (λ '(t1, t2), Post.post_type_id t1 =ₛ Some 2
                           AND Post.post_type_id t2 =ₛ Some 1
                           AND Post.id t2 =ₛ Some post_id)
        (INNER_JOIN (table_Post db) (table_Post db)
          (λ t1 t2, Post.parent_id t1 =ₛ Post.id t2)))).

(** The same, with
    AND t1.creation_date > %(start)s AND t1.creation_date < %(end)s *)
Definition users_in_post_timebin_query (post_id start_ end_ : Z)
    (db : Database) : list sqlval :=
  DISTINCT
    (SELECT (λ '(t1, t2), Post.owner_user_id t1)
      (WHERE (λ '(t1, t2), Post.post_type_id t1 =ₛ Some 2
                           AND Post.post_type_id t2 =ₛ Some 1
                           AND Post.id t2 =ₛ Some post_id
                           AND Post.creation_date t1 >ₛ Some start_
                           AND Post.creation_date t1 <ₛ Some end_)
        (INNER_JOIN (table_Post db) (table_Post db)
          (λ t1 t2, Post.parent_id t1 =ₛ Post.id t2)))).

Definition users_in_post (cursor : Cursor R) (post_id : Z)
    (timebin : option TimeBin) : list sqlval :=
  let cursor :=
    match timebin with
    | None => execute (users_in_post_query post_id) cursor
    | Some timebin =>
        execute (users_in_post_timebin_query post_id
                   (start timebin) (end_ timebin)) cursor
    end in
  (λ result, result) <$> iterate cursor.
End queries.

(** ** users_by_tournament *)

(** A row of the five-way join [q, a1, a2, u1, u2]. *)
Abbreviation tournament_row :=
  (Post.t * Post.t * Post.t * se_user.t * se_user.t)%type.

(** FROM Post q
    INNER JOIN Post a1 ON q.id = a1.parent_id
    INNER JOIN Post a2 ON q.id = a2.parent_id
    INNER JOIN se_user u1 ON u1.id = a1.owner_user_id
    INNER JOIN se_user u2 ON u2.id = a2.owner_user_id *)
Definition tournament_join (db : Database) : list tournament_row :=
  INNER_JOIN
    (INNER_JOIN
      (INNER_JOIN
        (INNER_JOIN (table_Post db) (table_Post db)
          (λ q a1, Post.id q =ₛ Post.parent_id a1))
        (table_Post db)
        (λ '(q, a1) a2, Post.id q =ₛ Post.parent_id a2))
      (table_se_user db)
      (λ '(q, a1, a2) u1, se_user.id u1 =ₛ Post.owner_user_id a1))
    (table_se_user db)
    (λ '(q, a1, a2, u1) u2, se_user.id u2 =ₛ Post.owner_user_id a2).

(** GREATEST(a1.creation_date, a2.creation_date) *)
Definition later_date : tournament_row → sqlval :=
  λ '(q, a1, a2, u1, u2),
    GREATEST (Post.creation_date a1) (Post.creation_date a2).

(** WHERE a1.creation_date > %(start)s AND a1.creation_date < %(end)s
    AND a2.creation_date > %(start)s AND a2.creation_date < %(end)s *)
Definition both_within (start_ end_ : Z) : tournament_row → tribool :=
  λ '(q, a1, a2, u1, u2),
    Post.creation_date a1 >ₛ Some start_
    AND Post.creation_date a1 <ₛ Some end_
    AND Post.creation_date a2 >ₛ Some start_
    AND Post.creation_date a2 <ₛ Some end_.

(** SELECT u1.id, a1.score, u2.id, a2.score *)
Definition tournament_columns
    : tournament_row → sqlval * sqlval * sqlval * sqlval :=
  λ '(q, a1, a2, u1, u2),
    (se_user.id u1, Post.score a1, se_user.id u2, Post.score a2).

(** The joined rows in the order each query returns them, before the SELECT
    list drops the dates: ... ORDER BY GREATEST(...) *)
Definition tournament_rows_all (db : Database) : list tournament_row :=
  ORDER_BY later_date (tournament_join db).

Definition tournament_rows_within (start_ end_ : Z) (db : Database)
    : list tournament_row :=
  ORDER_BY later_date (WHERE (both_within start_ end_) (tournament_join db)).

Definition users_by_tournament_query (db : Database)
    : list (sqlval * sqlval * sqlval * sqlval) :=
  SELECT tournament_columns (tournament_rows_all db).

Definition users_by_tournament_timebin_query (start_ end_ : Z)
    (db : Database) : list (sqlval * sqlval * sqlval * sqlval) :=
  SELECT tournament_columns (tournament_rows_within start_ end_ db).

(** ((result[0], result[1]), (result[2], result[3])) *)
Definition pair_up
    : sqlval * sqlval * sqlval * sqlval → (sqlval * sqlval) * (sqlval * sqlval) :=
  λ '(r0, r1, r2, r3), ((r0, r1), (r2, r3)).

Definition users_by_tournament {R} (cursor : Cursor R)
    (timebin : option TimeBin)
    : list ((sqlval * sqlval) * (sqlval * sqlval)) :=
  let cursor :=
    match timebin with
    | None => execute users_by_tournament_query cursor
    | Some timebin =>
        execute (users_by_tournament_timebin_query
                   (start timebin) (end_ timebin)) cursor
    end in
  pair_up <$> iterate cursor.

(** The rows behind the sequence [users_by_tournament] yields. *)
Definition tournament_rows (timebin : option TimeBin) (db : Database)
    : list tournament_row :=
  match timebin with
  | None => tournament_rows_all db
  | Some timebin => tournament_rows_within (start timebin) (end_ timebin) db
  end.

(** ** Python names and exceptions *)

(** What a name of the module can be bound to while [cau] runs. *)
Inductive pyval :=
  | PyNone
  | PyInt (z : Z)
  | PyStr (s : string)
  | PyTimeBin (t : TimeBin)
  | PyCursor                       (* the cursor object the caller passed *)
  | PyFunction (name : string)
  | PyBuiltin (name : string).

Inductive exn :=
  | NameError (name : string)
  | AttributeError (attr : string)
  | ProgrammingError.              (* psycopg2: can't adapt the value *)

Inductive outcome (A : Type) :=
  | Return (a : A)
  | Raise (e : exn).
Arguments Return {A} _.
Arguments Raise {A} _.

Global Instance outcome_ret : MRet outcome := λ A a, Return a.
Global Instance outcome_bind : MBind outcome := λ A B f m,
  match m with
  | Return a => f a
  | Raise e => Raise e
  end.

(** The names the module binds at import: what it imports and defines, and
    the attributes every module has. *)
Definition module_globals : gmap string pyval :=
  list_to_map
    [("__name__", PyStr "search_utilities"); ("__doc__", PyNone);
     ("__package__", PyNone); ("__file__", PyStr "search_utilities.py");
     ("__builtins__", PyBuiltin "__builtins__");
     ("namedtuple", PyFunction "namedtuple");
     ("TimeBin", PyFunction "TimeBin");
     ("posts_by_type", PyFunction "posts_by_type");
     ("posts_within_timebin", PyFunction "posts_within_timebin");
     ("posts_by_user", PyFunction "posts_by_user");
     ("users_above_threshold", PyFunction "users_above_threshold");
     ("users_in_post", PyFunction "users_in_post");
     ("users_by_tournament", PyFunction "users_by_tournament");
     ("cau", PyFunction "cau")].

(** The names of Python's built-in namespace (functions, constants and
    exception classes, of Python 2 and 3 alike). *)
Definition builtins : list string :=
  ["abs"; "all"; "any"; "apply"; "ascii"; "basestring"; "bin"; "bool";
   "breakpoint"; "buffer"; "bytearray"; "bytes"; "callable"; "chr";
   "classmethod"; "cmp"; "coerce"; "compile"; "complex"; "copyright";
   "credits"; "delattr"; "dict"; "dir"; "divmod"; "enumerate"; "eval";
   "exec"; "execfile"; "exit"; "file"; "filter"; "float"; "format";
   "frozenset"; "getattr"; "globals"; "hasattr"; "hash"; "help"; "hex";
   "id"; "input"; "int"; "intern"; "isinstance"; "issubclass"; "iter";
   "len"; "license"; "list"; "locals"; "long"; "map"; "max"; "memoryview";
   "min"; "next"; "object"; "oct"; "open"; "ord"; "pow"; "print";
   "property"; "quit"; "range"; "raw_input"; "reduce"; "reload"; "repr";
   "reversed"; "round"; "set"; "setattr"; "slice"; "sorted";
   "staticmethod"; "str"; "sum"; "super"; "tuple"; "type"; "unichr";
   "unicode"; "vars"; "xrange"; "zip"; "__import__"; "__debug__";
   "None"; "True"; "False"; "Ellipsis"; "NotImplemented";
   "BaseException"; "Exception"; "ArithmeticError"; "AssertionError";
   "AttributeError"; "BufferError"; "EOFError"; "EnvironmentError";
   "FloatingPointError"; "GeneratorExit"; "IOError"; "ImportError";
   "IndentationError"; "IndexError"; "KeyError"; "KeyboardInterrupt";
   "LookupError"; "MemoryError"; "NameError"; "NotImplementedError";
   "OSError"; "OverflowError"; "ReferenceError"; "RuntimeError";
   "StandardError"; "StopIteration"; "SyntaxError"; "SystemError";
   "SystemExit"; "TabError"; "TypeError"; "UnboundLocalError";
   "UnicodeDecodeError"; "UnicodeEncodeError"; "UnicodeError";
   "UnicodeTranslateError"; "ValueError"; "ZeroDivisionError";
   "Warning"; "DeprecationWarning"; "FutureWarning"; "ImportWarning";
   "PendingDeprecationWarning"; "RuntimeWarning"; "SyntaxWarning";
   "UnicodeWarning"; "UserWarning"]%string.

(** Reading a name inside a function: its local names first, then the
    module's globals, then the built-ins; a name found nowhere raises
    [NameError]. *)
Definition load_name (locals globals : gmap string pyval) (name : string)
    : outcome pyval :=
  match locals !! name with
  | Some v => Return v
  | None =>
      match globals !! name with
      | Some v => Return v
      | None =>
          if bool_decide (name ∈ builtins) then Return (PyBuiltin name)
          else Raise (NameError name)
      end
  end.

(** [cursor.execute] and [cursor.fetchone] exist on a cursor only. *)
Definition method (attr : string) (v : pyval) : outcome unit :=
  match v with
  | PyCursor => Return ()
  | _ => Raise (AttributeError attr)
  end.

(** [timebin.start], [timebin.end]. *)
Definition field (attr : string) (get : TimeBin → Z) (v : pyval)
    : outcome Z :=
  match v with
  | PyTimeBin t => Return (get t)
  | _ => Raise (AttributeError attr)
  end.

(** How psycopg2 passes a Python value as a query parameter. *)
Definition adapt (v : pyval) : outcome sqlval :=
  match v with
  | PyInt z => Return (Some z)
  | PyNone => Return NULL
  | _ => Raise ProgrammingError
  end.

(** ** cau *)

(** SELECT SUM(score) FROM Post
    WHERE owner_user_id = %(user_id)s AND post_type_id = 2 *)
Definition cau_query (user_id : sqlval) (db : Database) : list sqlval :=
  [SUM Post.score
     (WHERE (λ p, Post.owner_user_id p =ₛ user_id
                  AND Post.post_type_id p =ₛ Some 2)
       (table_Post db))].

(** The same, with
    AND creation_date > %(start)s AND creation_date < %(end)s *)
Definition cau_timebin_query (user_id : sqlval) (start_ end_ : Z)
    (db : Database) : list sqlval :=
  [SUM Post.score
     (WHERE (λ p, Post.owner_user_id p =ₛ user_id
                  AND Post.post_type_id p =ₛ Some 2
                  AND Post.creation_date p >ₛ Some start_
                  AND Post.creation_date p <ₛ Some end_)
       (table_Post db))].

(** The two query strings, as [cau] binds them to [query]. *)
Definition cau_sql : string :=
  "SELECT SUM(score) FROM Post WHERE owner_user_id = %(user_id)s AND post_type_id = 2".

Definition cau_timebin_sql : string :=
  "SELECT SUM(score) FROM Post WHERE owner_user_id = %(user_id)s AND post_type_id = 2 AND creation_date > %(start)s AND creation_date < %(end)s;".

(** [cau], run in a module whose global names are [globals].  The names the
    body reads are looked up one by one, in the order Python evaluates them:
    the callee, then the arguments from left to right; the call itself, which
    adapts the parameters and runs the query, comes after them. *)
Definition cau_in {R} (globals : gmap string pyval) (cursor : Cursor R)
    (user_id : Z) (timebin : option TimeBin) : outcome (option sqlval) :=
  let arguments : gmap string pyval :=
    <["cursor" := PyCursor]>
      (<["user_id" := PyInt user_id]>
        (<["timebin" := from_option PyTimeBin PyNone timebin]> ∅)) in
  match timebin with
  | None =>
      let load := load_name (<["query" := PyStr cau_sql]> arguments) globals in
      (* cursor.execute(query, {'user_id': user_id}) *)
      _ ← load "cursor" ≫= method "execute";
      _ ← load "query";
      user_id ← load "user_id";
      user_id ← adapt user_id;
      let cursor := execute (cau_query user_id) cursor in
      (* return cur.fetchone() *)
      _ ← load "cur" ≫= method "fetchone";
      Return (fetchone cursor)
  | Some _ =>
      let load :=
        load_name (<["query" := PyStr cau_timebin_sql]> arguments) globals in
      (* cursor.execute(query, {'user_id': post_id,
                                'start': timebin.start,
                                'end': timebin.end}) *)
      _ ← load "cursor" ≫= method "execute";
      _ ← load "query";
      user_id ← load "post_id";
      start_ ← load "timebin" ≫= field "start" start;
      end_ ← load "timebin" ≫= field "end" end_;
      user_id ← adapt user_id;
      let cursor := execute (cau_timebin_query user_id start_ end_) cursor in
      (* return cur.fetchone() *)
      _ ← load "cur" ≫= method "fetchone";
      Return (fetchone cursor)
  end.

Definition cau {R} (cursor : Cursor R) (user_id : Z)
    (timebin : option TimeBin) : outcome (option sqlval) :=
  cau_in module_globals cursor user_id timebin.

(** ** Generators *)

(** What the functions hand back are generator expressions over the cursor:
    nothing is read when the function returns; a row is fetched, and the
    element expression evaluated on it, when the generator is advanced, from
    the rows the cursor holds at that moment.  Here the cursor holds the rows
    as the driver delivers them, tuples of any width, and a generator is its
    element expression. *)
Abbreviation tuple := (list sqlval).

(** [result[i]]; [None] stands for IndexError. *)
Definition item (i : nat) (result : tuple) : option sqlval := result !! i.

Definition generator (A : Type) : Type := tuple → option A.

(** Advancing a generator to its end over the rows left in the cursor, as
    [list(generator)] does: what it yields ([None] when an element raised
    IndexError, which ends the iteration at that row) and the rows not
    fetched. *)
Fixpoint drain {A} (element : generator A) (rows : list tuple)
    : option (list A) * list tuple :=
  match rows with
  | [] => (Some [], [])
  | result :: rows =>
      match element result with
      | None => (None, rows)
      | Some x =>
          let '(xs, rest) := drain element rows in (cons x <$> xs, rest)
      end
  end.

Definition list_of {A} (g : generator A) (cursor : Cursor tuple)
    : option (list A) * Cursor tuple :=
  let '(xs, rest) := drain g (result_set cursor) in
  (xs, {| connection := connection cursor; result_set := rest |}).

(** A cursor whose rows have all been fetched. *)
Definition exhausted {R R'} (cursor : Cursor R) : Cursor R' :=
  {| connection := connection cursor; result_set := [] |}.

(** The rows of the queries as tuples. *)
Definition row1 (v : sqlval) : tuple := [v].
Definition row2 : sqlval * sqlval → tuple := λ '(r0, r1), [r0; r1].
Definition row4 : sqlval * sqlval * sqlval * sqlval → tuple :=
  λ '(r0, r1, r2, r3), [r0; r1; r2; r3].

(** The functions again, each returning its generator and the cursor as
    [execute] left it. *)
Module Lazy.
Definition posts_by_type {R} (cursor : Cursor R) (post_type : option Z)
    : generator (sqlval * sqlval) * Cursor tuple :=
  let post_type := match post_type with None => 1 | Some t => t end in
  let cursor :=
    execute (λ db, row2 <$> posts_by_type_query post_type db) cursor in
  (λ result, r0 ← item 0 result; r1 ← item 1 result; Some (r0, r1), cursor).

Definition posts_within_timebin {R} (cursor : Cursor R) (timebin : TimeBin)
    : generator sqlval * Cursor tuple :=
  let cursor :=
    execute (λ db, row1 <$> posts_within_timebin_query
                              (start timebin) (end_ timebin) db) cursor in
  (λ result, item 0 result, cursor).

Definition posts_by_user {R} (cursor : Cursor R) (user_id : Z)
    (timebin : option TimeBin) : generator sqlval * Cursor tuple :=
  let cursor :=
    match timebin with
    | None => execute (λ db, row1 <$> posts_by_user_query user_id db) cursor
    | Some timebin =>
        execute (λ db, row1 <$> posts_by_user_timebin_query user_id
                                  (start timebin) (end_ timebin) db) cursor
    end in
  (λ result, item 0 result, cursor).

Definition users_above_threshold {R} (cursor : Cursor R) (threshold : Z)
    : generator sqlval * Cursor tuple :=
  let cursor :=
    execute (λ db, row1 <$> users_above_threshold_query threshold db)
      cursor in
  (λ result, item 0 result, cursor).

Definition users_in_post {R} (cursor : Cursor R) (post_id : Z)
    (timebin : option TimeBin) : generator sqlval * Cursor tuple :=
  let cursor :=
    match timebin with
    | None => execute (λ db, row1 <$> users_in_post_query post_id db) cursor
    | Some timebin =>
        execute (λ db, row1 <$> users_in_post_timebin_query post_id
                                  (start timebin) (end_ timebin) db) cursor
    end in
  (λ result, item 0 result, cursor).

Definition users_by_tournament {R} (cursor : Cursor R)
    (timebin : option TimeBin)
    : generator ((sqlval * sqlval) * (sqlval * sqlval)) * Cursor tuple :=
  let cursor :=
    match timebin with
    | None => execute (λ db, row4 <$> users_by_tournament_query db) cursor
    | Some timebin =>
        execute (λ db, row4 <$> users_by_tournament_timebin_query
                                  (start timebin) (end_ timebin) db) cursor
    end in
  (λ result,
     r0 ← item 0 result; r1 ← item 1 result;
     r2 ← item 2 result; r3 ← item 3 result;
     Some ((r0, r1), (r2, r3)),
   cursor).
End Lazy.

(** [list(f(cursor, ...))]: the call, then its generator advanced to the
    end on the cursor the call left. *)
Definition collect {A} (call : generator A * Cursor tuple)
    : option (list A) * Cursor tuple :=
  list_of call.1 call.2.

(** ** Reference data *)

(** A cursor that has not run a query yet. *)
Definition fresh_cursor (db : Database) : Cursor () :=
  {| connection := db; result_set := [] |}.

(** One question with two answers: A1 by user 1 (score 3, day 2) and A2 by
    user 2 (score 5, day 3); both users are registered. *)
Definition question : Post.t :=
  Post.mk (Some 10) (Some 9) (Some 1) NULL (Some 1) (Some 0).
Definition answer1 : Post.t :=
  Post.mk (Some 11) (Some 1) (Some 2) (Some 10) (Some 2) (Some 3).
Definition answer2 : Post.t :=
  Post.mk (Some 12) (Some 2) (Some 2) (Some 10) (Some 3) (Some 5).
Definition user1 : se_user.t := se_user.mk (Some 1) (Some 100).
Definition user2 : se_user.t := se_user.mk (Some 2) (Some 250).

Definition forum : Database :=
  {| table_Post := [question; answer1; answer2];
     table_se_user := [user1; user2] |}.

(** An answer whose author's account is gone: no row of [se_user] has its
    owner's id. *)
Definition orphan_forum : Database :=
  {| table_Post := [question; answer1];
     table_se_user := [user2] |}.

(** The same cursor over a database whose [se_user] table is [users]. *)
Definition with_se_user {R} (users : list se_user.t) (cursor : Cursor R)
    : Cursor R :=
  {| connection := {| table_Post := table_Post (connection cursor);
                      table_se_user := users |};
     result_set := result_set cursor |}.

(** ** Reading the conditions *)

(** A date lies strictly inside a time bin. *)
Definition within (start_ end_ : Z) (date : sqlval) : Prop :=
  ∃ d, date = Some d ∧ start_ < d < end_.

(** A user's reputation is known and strictly above the threshold. *)
Definition reputation_above (threshold : Z) (u : se_user.t) : Prop :=
  ∃ r, se_user.reputation u = Some r ∧ threshold < r.

Global Instance reputation_above_dec threshold u :
  Decision (reputation_above threshold u).
Proof.
  unfold reputation_above. destruct (se_user.reputation u) as [r|].
  - destruct (decide (threshold < r)); [left; eauto|right].
    intros (? & [= <-] & ?). done.
  - right. intros (? & [=] & _).
Defined.

(** A post [a] answers [q] for the join, and [u] is joined to it as its
    author, when the keys are equal and not NULL; [a] passes the optional
    date filter when there is no time bin or its date is strictly inside. *)
Definition child_of (q a : Post.t) : Prop :=
  ∃ k, Post.id q = Some k ∧ Post.parent_id a = Some k.

Definition owned_by (u : se_user.t) (a : Post.t) : Prop :=
  ∃ k, se_user.id u = Some k ∧ Post.owner_user_id a = Some k.

Definition passes (timebin : option TimeBin) (a : Post.t) : Prop :=
  match timebin with
  | None => True
  | Some timebin =>
      within (start timebin) (end_ timebin) (Post.creation_date a)
  end.

(** The element of the output for the answers [a1] by [u1] and [a2] by [u2]. *)
Definition tournament (a1 : Post.t) (u1 : se_user.t) (a2 : Post.t)
    (u2 : se_user.t) : (sqlval * sqlval) * (sqlval * sqlval) :=
  ((se_user.id u1, Post.score a1), (se_user.id u2, Post.score a2)).

(** An answer to the question [post_id], as the join and the WHERE clause
    of [users_in_post] see it. *)
Definition answers (post_id : Z) (answer question : Post.t) : Prop :=
  Post.post_type_id answer = Some 2
  ∧ Post.post_type_id question = Some 1
  ∧ Post.id question = Some post_id
  ∧ Post.parent_id answer = Some post_id.

(** The same join row with its two answers exchanged. *)
Definition mirror : tournament_row → tournament_row :=
  λ '(q, a1, a2, u1, u2), (q, a2, a1, u2, u1).

(** The competitors of the tournament held for the post [q]: each post whose
    parent is [q], once per row of [se_user] joined to it as its owner. *)
Definition entries (db : Database) (q : Post.t) : list (Post.t * se_user.t) :=
  INNER_JOIN (WHERE (λ a, Post.id q =ₛ Post.parent_id a) (table_Post db))
    (table_se_user db) (λ a u, se_user.id u =ₛ Post.owner_user_id a).

(** The order of [ORDER BY] on rows, through their key. *)
Definition by_key {A} (key : A → sqlval) : relation A :=
  λ r1 r2, sql_le (key r1) (key r2).

(** * Properties *)

(** ** Three-valued logic and the combinators *)

Lemma holds_and p q : holds (p AND q) ↔ holds p ∧ holds q.
Proof. destruct p as [[]|], q as [[]|]; simpl; naive_solver. Qed.

Lemma holds_eq a b : holds (a =ₛ b) ↔ ∃ x, a = Some x ∧ b = Some x.
Proof.
  destruct a as [x|], b as [y|]; simpl; try naive_solver.
  destruct (Z.eqb_spec x y); simpl; naive_solver.
Qed.

Lemma holds_gt a y : holds (a >ₛ Some y) ↔ ∃ x, a = Some x ∧ y < x.
Proof.
  destruct a as [x|]; simpl; [|naive_solver].
  rewrite Z.gtb_ltb. destruct (Z.ltb_spec y x); simpl; [naive_solver|].
  split; [done|]. intros (? & [= <-] & ?). lia.
Qed.

Lemma holds_lt a y : holds (a <ₛ Some y) ↔ ∃ x, a = Some x ∧ x < y.
Proof.
  destruct a as [x|]; simpl; [|naive_solver].
  destruct (Z.ltb_spec x y); simpl; [naive_solver|].
  split; [done|]. intros (? & [= <-] & ?). lia.
Qed.

Lemma holds_within start_ end_ date :
  holds (date >ₛ Some start_ AND date <ₛ Some end_) ↔ within start_ end_ date.
Proof.
  rewrite holds_and, holds_gt, holds_lt. unfold within. split.
  - intros [(d & -> & ?) (? & [= <-] & ?)]. eauto.
  - intros (d & -> & ? & ?). split; eauto.
Qed.

Lemma elem_of_WHERE {A} (cond : A → tribool) rows r :
  r ∈ WHERE cond rows ↔ holds (cond r) ∧ r ∈ rows.
Proof. unfold WHERE. by rewrite list_elem_of_filter. Qed.

Lemma WHERE_AND {A} (c1 c2 : A → tribool) rows :
  WHERE (λ r, c1 r AND c2 r) rows = WHERE c2 (WHERE c1 rows).
Proof.
  unfold WHERE. rewrite list_filter_filter. apply list_filter_iff.
  intros r. rewrite holds_and. tauto.
Qed.

Lemma WHERE_sublist {A} (cond : A → tribool) rows :
  sublist (WHERE cond rows) rows.
Proof. apply sublist_filter. Qed.

Lemma WHERE_none {A} (cond : A → tribool) rows :
  (∀ r, r ∈ rows → ¬ holds (cond r)) → WHERE cond rows = [].
Proof.
  unfold WHERE. induction rows as [|r rows IH]; intros Hno; [done|].
  rewrite filter_cons_False by (apply Hno; left).
  apply IH. intros r' ?. apply Hno. by right.
Qed.

Lemma elem_of_INNER_JOIN {A B} (left : list A) (right : list B) on a b :
  (a, b) ∈ INNER_JOIN left right on ↔ a ∈ left ∧ b ∈ right ∧ holds (on a b).
Proof.
  unfold INNER_JOIN. rewrite list_elem_of_bind. split.
  - intros (a' & Hb & Ha). apply list_elem_of_bind in Hb as (b' & Hab & Hb).
    apply list_elem_of_singleton in Hab as [= -> ->].
    apply elem_of_WHERE in Hb. tauto.
  - intros (Ha & Hb & Hon). exists a. split; [|done].
    apply list_elem_of_bind. exists b. split; [by left|].
    by apply elem_of_WHERE.
Qed.

Lemma fmap_result {A} (rows : list A) : (λ result, result) <$> rows = rows.
Proof. apply list_fmap_id. Qed.

(** ** posts_within_timebin *)

(** C7: for every time bin whose start is not before its end (equal bounds
    included), [posts_within_timebin] yields the empty sequence: no creation
    date is both strictly after the start and strictly before the end. *)
Theorem posts_within_timebin_empty {R} (cursor : Cursor R) (timebin : TimeBin) :
  start timebin >= end_ timebin →
  posts_within_timebin cursor timebin = [].
Proof.
  intros Hbin. unfold posts_within_timebin, iterate, execute; simpl.
  rewrite fmap_result. unfold posts_within_timebin_query, SELECT.
  rewrite WHERE_none; [done|].
  intros p _ (d & _ & ?)%holds_within. lia.
Qed.

Lemma posts_within_timebin_empty_witness :
  3 >= 3 ∧ posts_within_timebin (fresh_cursor forum) {| start := 3; end_ := 3 |} = [].
Proof.
  split; [lia|].
  apply (posts_within_timebin_empty (fresh_cursor forum)
           {| start := 3; end_ := 3 |}).
  simpl. lia.
Defined.

(** ** posts_by_user *)

(** C8: for every user and every time bin, what [posts_by_user] yields with
    the time bin is a subsequence of what it yields without one, so every
    post id of the first is a post id of the second. *)
Theorem posts_by_user_timebin_subset {R} (cursor : Cursor R) (user_id : Z)
    (timebin : TimeBin) :
  sublist (posts_by_user cursor user_id (Some timebin))
          (posts_by_user cursor user_id None)
  ∧ ∀ post_id, post_id ∈ posts_by_user cursor user_id (Some timebin) →
               post_id ∈ posts_by_user cursor user_id None.
Proof.
  assert (sublist (posts_by_user cursor user_id (Some timebin))
                  (posts_by_user cursor user_id None)) as Hsub.
  { unfold posts_by_user, iterate, execute; simpl. rewrite !fmap_result.
    unfold posts_by_user_timebin_query, posts_by_user_query, SELECT.
    rewrite WHERE_AND. apply fmap_sublist, WHERE_sublist. }
  split; [done|]. intros post_id. by apply sublist_subseteq.
Qed.

(** ** users_above_threshold *)

(** C10: [users_above_threshold] yields exactly the ids of the rows of
    [se_user] whose reputation is strictly greater than the threshold, once
    per row and in table order; a reputation equal to the threshold does not
    qualify, so a row with it can be taken out of the table without changing
    the result. *)
Theorem users_above_threshold_strict {R} (cursor : Cursor R) (threshold : Z) :
  users_above_threshold cursor threshold
    = se_user.id <$> filter (reputation_above threshold)
                       (table_se_user (connection cursor))
  ∧ (∀ user_id, user_id ∈ users_above_threshold cursor threshold ↔
       ∃ u r, u ∈ table_se_user (connection cursor) ∧ se_user.id u = user_id
              ∧ se_user.reputation u = Some r ∧ threshold < r)
  ∧ (∀ before u after, se_user.reputation u = Some threshold →
       users_above_threshold (with_se_user (before ++ u :: after) cursor)
         threshold
       = users_above_threshold (with_se_user (before ++ after) cursor)
           threshold).
Proof.
  assert (∀ db, users_above_threshold_query threshold db
            = se_user.id <$> filter (reputation_above threshold)
                               (table_se_user db)) as Hq.
  { intros db. unfold users_above_threshold_query, SELECT, WHERE. f_equal.
    apply list_filter_iff. intros u. apply holds_gt. }
  unfold users_above_threshold, iterate, execute.
  cbn [connection result_set table_se_user].
  rewrite !fmap_result, !Hq. split_and!; [done| |].
  - intros user_id. rewrite list_elem_of_fmap. split.
    + intros (u & -> & [(r & ? & ?) ?]%list_elem_of_filter). by exists u, r.
    + intros (u & r & ? & <- & ? & ?). exists u. split; [done|].
      apply list_elem_of_filter. split; [by exists r|done].
  - intros before u after Hu. unfold with_se_user.
    cbn [connection result_set table_se_user].
    rewrite !fmap_result, !Hq. cbn [table_se_user].
    rewrite !filter_app, filter_cons_False; [done|].
    intros (r & Hr & ?). rewrite Hu in Hr. injection Hr as <-. lia.
Qed.

(** With threshold 100, a user whose reputation is exactly 100 is left out
    and one with 250 is kept. *)
Example users_above_threshold_100 :
  users_above_threshold (fresh_cursor forum) 100 = [Some 2].
Proof. reflexivity. Qed.

(** ** users_in_post *)

(** C9: for every post id, time bin or none, and dataset, the sequence
    [users_in_post] yields holds no user id twice, however many answers a
    user wrote to the question. *)
Theorem users_in_post_distinct {R} (cursor : Cursor R) (post_id : Z)
    (timebin : option TimeBin) :
  NoDup (users_in_post cursor post_id timebin).
Proof.
  unfold users_in_post, iterate.
  destruct timebin as [timebin|]; simpl; rewrite fmap_result;
    apply NoDup_remove_dups.
Qed.

(** ** cau *)

(** Neither [post_id] nor [cur] is a name of the module or a built-in. *)
Lemma post_id_unbound locals :
  locals !! "post_id" = None →
  load_name locals module_globals "post_id" = Raise (NameError "post_id").
Proof. intros Hl. unfold load_name. by rewrite Hl. Qed.

Lemma cur_unbound locals globals :
  locals !! "cur" = None → globals !! "cur" = None →
  load_name locals globals "cur" = Raise (NameError "cur").
Proof. intros Hl Hg. unfold load_name. by rewrite Hl, Hg. Qed.

(** The names [cau] does bind resolve, in either branch. *)
Lemma load_local (locals globals : gmap string pyval) name v :
  locals !! name = Some v → load_name locals globals name = Return v.
Proof. intros Hl. unfold load_name. by rewrite Hl. Qed.

(** C2: for every user id and every time bin, [cau] called with the time bin
    fails with a name-resolution error on [post_id], the name it reads for
    the user filter and that nothing binds; the supplied [user_id] is never
    used. *)
Theorem cau_timebin_post_id_unbound {R} (cursor : Cursor R) (user_id : Z)
    (timebin : TimeBin) :
  cau cursor user_id (Some timebin) = Raise (NameError "post_id").
Proof.
  unfold cau, cau_in. cbn zeta.
  set (locals := <["query" := _]> _).
  rewrite (load_local locals _ "cursor" PyCursor) by done.
  rewrite (load_local locals _ "query" (PyStr cau_timebin_sql)) by done.
  cbn [mbind outcome_bind method].
  by rewrite post_id_unbound.
Qed.

(** C3: for every user id, with or without a time bin, [cau] raises a
    name-resolution error and returns no value: without a time bin the
    error is on [cur], the name its last line reads in place of [cursor];
    with one it is the earlier error on [post_id]. *)
Theorem cau_never_returns {R} (cursor : Cursor R) (user_id : Z)
    (timebin : option TimeBin) :
  cau cursor user_id timebin
    = Raise (NameError (match timebin with
                        | Some _ => "post_id"
                        | None => "cur"
                        end))
  ∧ ∀ value, cau cursor user_id timebin ≠ Return value.
Proof.
  assert (cau cursor user_id timebin
            = Raise (NameError (match timebin with
                                | Some _ => "post_id"
                                | None => "cur"
                                end))) as ->.
  { unfold cau, cau_in. cbn zeta.
    destruct timebin as [timebin|]; set (locals := <["query" := _]> _);
      rewrite (load_local locals _ "cursor" PyCursor) by done;
      cbn [mbind outcome_bind method].
    - rewrite (load_local locals _ "query" (PyStr cau_timebin_sql)) by done.
      cbn [mbind outcome_bind]. by rewrite post_id_unbound.
    - rewrite (load_local locals _ "query" (PyStr cau_sql)) by done.
      rewrite (load_local locals _ "user_id" (PyInt user_id)) by done.
      cbn [mbind outcome_bind adapt].
      by rewrite cur_unbound. }
  split; [done|]. intros value [=].
Qed.

(** The last line alone rules a result out: in any module namespace that
    leaves [cur] unbound, also one that binds [post_id], no call of [cau]
    returns a value. *)
Lemma cau_in_cur_unbound {R} globals (cursor : Cursor R) user_id timebin :
  globals !! "cur" = None →
  ∀ value, cau_in globals cursor user_id timebin ≠ Return value.
Proof.
  intros Hcur value. unfold cau_in. cbn zeta.
  destruct timebin as [timebin|]; set (locals := <["query" := _]> _);
    rewrite (cur_unbound locals globals) by done;
    repeat (match goal with
            | |- context [load_name locals globals ?n] =>
                destruct (load_name locals globals n) as [[]|]
            end; cbn [mbind outcome_bind method adapt field]; try done).
Qed.

(** What the two queries of [cau] compute for a user without answers: one
    row holding NULL. *)
Lemma cau_query_no_answers (user_id : Z) (db : Database) :
  (∀ p, p ∈ table_Post db → Post.owner_user_id p = Some user_id →
        Post.post_type_id p ≠ Some 2) →
  cau_query (Some user_id) db = [NULL].
Proof.
  intros Hno. unfold cau_query. rewrite WHERE_none; [done|].
  intros p Hp [(? & Ho & [= <-])%holds_eq (? & Ht & [= <-])%holds_eq]%holds_and.
  by eapply Hno.
Qed.

(** Had the last line read [cursor] (here: were [cur] bound to the cursor),
    a user without answers would get the row holding NULL. *)
Lemma cau_in_cur_bound_no_answers {R} (cursor : Cursor R) (user_id : Z) :
  (∀ p, p ∈ table_Post (connection cursor) →
        Post.owner_user_id p = Some user_id → Post.post_type_id p ≠ Some 2) →
  cau_in (<["cur" := PyCursor]> module_globals) cursor user_id None
    = Return (Some NULL).
Proof.
  intros Hno. unfold cau_in. cbn zeta.
  set (locals := <["query" := _]> _).
  set (globals := <["cur" := _]> _).
  rewrite (load_local locals globals "cursor" PyCursor) by done.
  rewrite (load_local locals globals "query" (PyStr cau_sql)) by done.
  rewrite (load_local locals globals "user_id" (PyInt user_id)) by done.
  assert (load_name locals globals "cur" = Return PyCursor) as -> by done.
  cbn [mbind outcome_bind method adapt mret outcome_ret].
  unfold fetchone, execute. cbn [result_set connection].
  by rewrite cau_query_no_answers.
Qed.

(** C6 (what the code does): user 7 has no answer; the query [cau] sends
    without a time bin computes the row holding NULL, and [cau] raises
    [NameError] on [cur] instead of handing that row back. *)
Example cau_user_without_answers :
  cau_query (Some 7) forum = [NULL]
  ∧ cau (fresh_cursor forum) 7 None = Raise (NameError "cur").
Proof. split; reflexivity. Qed.

(** ** users_by_tournament *)

Global Instance sql_le_trans : Transitive sql_le.
Proof. intros [x|] [y|] [z|]; simpl; try done. lia. Qed.

Global Instance sql_le_total : Total sql_le.
Proof. intros [x|] [y|]; simpl; try tauto. lia. Qed.

Global Instance by_key_trans {A} (key : A → sqlval) : Transitive (by_key key).
Proof. intros r1 r2 r3. unfold by_key. apply sql_le_trans. Qed.

Global Instance by_key_total {A} (key : A → sqlval) : Total (by_key key).
Proof. intros r1 r2. unfold by_key. apply sql_le_total. Qed.

Lemma ORDER_BY_sorted {A} (key : A → sqlval) rows :
  StronglySorted (by_key key) (ORDER_BY key rows).
Proof. unfold ORDER_BY. apply (StronglySorted_merge_sort (by_key key)). Qed.

Lemma ORDER_BY_Permutation {A} (key : A → sqlval) rows :
  ORDER_BY key rows ≡ₚ rows.
Proof. unfold ORDER_BY. apply merge_sort_Permutation. Qed.

Lemma elem_of_ORDER_BY {A} (key : A → sqlval) rows r :
  r ∈ ORDER_BY key rows ↔ r ∈ rows.
Proof. by rewrite ORDER_BY_Permutation. Qed.

(** What [users_by_tournament] yields is the projection of the ordered
    join rows. *)
Lemma users_by_tournament_rows {R} (cursor : Cursor R) timebin :
  users_by_tournament cursor timebin
    = pair_up ∘ tournament_columns <$> tournament_rows timebin (connection cursor).
Proof.
  unfold users_by_tournament, iterate, execute, tournament_rows.
  destruct timebin as [timebin|]; cbn [result_set connection];
    unfold users_by_tournament_timebin_query, users_by_tournament_query, SELECT;
    by rewrite <-list_fmap_compose.
Qed.

(** An earlier row of the ordered join never has the greater key. *)
Lemma tournament_rows_in_order timebin db i j r1 r2 :
  (i < j)%nat →
  tournament_rows timebin db !! i = Some r1 →
  tournament_rows timebin db !! j = Some r2 →
  sql_le (later_date r1) (later_date r2).
Proof.
  intros Hij Hi Hj.
  assert (StronglySorted (by_key later_date) (tournament_rows timebin db))
    as Hsorted.
  { unfold tournament_rows, tournament_rows_within, tournament_rows_all.
    destruct timebin; apply ORDER_BY_sorted. }
  rewrite <-(take_drop (S i) (tournament_rows timebin db)) in Hsorted.
  eapply (StronglySorted_app_1_elem_of (by_key later_date)); [done| |].
  - apply (list_elem_of_lookup_2 _ i). rewrite lookup_take_lt; [done|lia].
  - apply (list_elem_of_lookup_2 _ (j - S i)). rewrite lookup_drop.
    by replace (S i + (j - S i))%nat with j by lia.
Qed.

(** C5: for every dataset and every time bin or none, the sequence
    [users_by_tournament] yields is, position by position, the image of the
    join rows, and along these rows the greater of the two answers'
    creation dates never decreases: whenever the row yielded at position [i]
    pairs answers dated [d1] and [d2] and a later one, at [j], answers dated
    [e1] and [e2], then [Z.max d1 d2 ≤ Z.max e1 e2].  Where a date is NULL
    the greater date is the greatest of the known ones, and rows without
    any known date come after all the others. *)
Theorem users_by_tournament_sorted {R} (cursor : Cursor R)
    (timebin : option TimeBin) :
  users_by_tournament cursor timebin
    = pair_up ∘ tournament_columns <$> tournament_rows timebin (connection cursor)
  ∧ ∀ (i j : nat) q a1 a2 u1 u2 q' b1 b2 v1 v2,
      (i < j)%nat →
      tournament_rows timebin (connection cursor) !! i
        = Some (q, a1, a2, u1, u2) →
      tournament_rows timebin (connection cursor) !! j
        = Some (q', b1, b2, v1, v2) →
      (∀ d1 d2 e1 e2,
         Post.creation_date a1 = Some d1 → Post.creation_date a2 = Some d2 →
         Post.creation_date b1 = Some e1 → Post.creation_date b2 = Some e2 →
         Z.max d1 d2 ≤ Z.max e1 e2)
      ∧ (∀ d e,
           Post.creation_date a1 = Some d ∨ Post.creation_date a2 = Some d →
           (∀ x, Post.creation_date a1 = Some x ∨ Post.creation_date a2 = Some x →
                 x ≤ d) →
           Post.creation_date b1 = Some e ∨ Post.creation_date b2 = Some e →
           (∀ x, Post.creation_date b1 = Some x ∨ Post.creation_date b2 = Some x →
                 x ≤ e) →
           d ≤ e)
      ∧ (Post.creation_date a1 = NULL → Post.creation_date a2 = NULL →
         Post.creation_date b1 = NULL ∧ Post.creation_date b2 = NULL).
Proof.
  split; [apply users_by_tournament_rows|].
  intros i j q a1 a2 u1 u2 q' b1 b2 v1 v2 Hij Hi Hj.
  pose proof (tournament_rows_in_order _ _ _ _ _ _ Hij Hi Hj) as Hle.
  unfold later_date, GREATEST, sql_le in Hle.
  split_and!.
  - intros d1 d2 e1 e2 Ha1 Ha2 Hb1 Hb2.
    by rewrite Ha1, Ha2, Hb1, Hb2 in Hle.
  - intros d e Hd Hdmax He Hemax.
    destruct (Post.creation_date a1) as [x1|], (Post.creation_date a2) as [x2|],
      (Post.creation_date b1) as [y1|], (Post.creation_date b2) as [y2|];
      try (by destruct Hd); try (by destruct He); try done.
    all: repeat match goal with
           | H : ∀ x, _ ∨ _ → _ |- _ =>
               pose proof (H _ (or_introl eq_refl));
               pose proof (H _ (or_intror eq_refl)); clear H
           | H : ∀ x, _ ∨ _ → _ |- _ =>
               pose proof (H _ (or_introl eq_refl)); clear H
           | H : ∀ x, _ ∨ _ → _ |- _ =>
               pose proof (H _ (or_intror eq_refl)); clear H
           end.
    all: destruct Hd as [[= <-]|[= <-]], He as [[= <-]|[= <-]]; lia.
  - intros Ha1 Ha2. rewrite Ha1, Ha2 in Hle.
    by destruct (Post.creation_date b1), (Post.creation_date b2).
Qed.

(** Along the rows, known later dates ascend as integers. *)
Lemma tournament_dates_ascending timebin db i j r1 r2 d1 d2 :
  (i < j)%nat →
  tournament_rows timebin db !! i = Some r1 →
  tournament_rows timebin db !! j = Some r2 →
  later_date r1 = Some d1 → later_date r2 = Some d2 →
  d1 ≤ d2.
Proof.
  intros Hij Hi Hj Hd1 Hd2.
  assert (StronglySorted (by_key later_date) (tournament_rows timebin db))
    as Hsorted.
  { unfold tournament_rows, tournament_rows_within, tournament_rows_all.
    destruct timebin; apply ORDER_BY_sorted. }
  rewrite <-(take_drop (S i) (tournament_rows timebin db)) in Hsorted.
  assert (by_key later_date r1 r2) as Hle.
  { eapply StronglySorted_app_1_elem_of; [done| |].
    - apply (list_elem_of_lookup_2 _ i). rewrite lookup_take_lt; [done|lia].
    - apply (list_elem_of_lookup_2 _ (j - S i)). rewrite lookup_drop.
      by replace (S i + (j - S i))%nat with j by lia. }
  unfold by_key in Hle. by rewrite Hd1, Hd2 in Hle.
Qed.

(** *** Which rows the join holds *)

Lemma elem_of_tournament_join db q a1 a2 u1 u2 :
  (q, a1, a2, u1, u2) ∈ tournament_join db ↔
    q ∈ table_Post db ∧ a1 ∈ table_Post db ∧ a2 ∈ table_Post db
    ∧ u1 ∈ table_se_user db ∧ u2 ∈ table_se_user db
    ∧ holds (Post.id q =ₛ Post.parent_id a1)
    ∧ holds (Post.id q =ₛ Post.parent_id a2)
    ∧ holds (se_user.id u1 =ₛ Post.owner_user_id a1)
    ∧ holds (se_user.id u2 =ₛ Post.owner_user_id a2).
Proof.
  unfold tournament_join. rewrite !elem_of_INNER_JOIN. tauto.
Qed.

Lemma elem_of_tournament_rows timebin db r :
  r ∈ tournament_rows timebin db ↔
    r ∈ tournament_join db
    ∧ match timebin with
      | None => True
      | Some timebin => holds (both_within (start timebin) (end_ timebin) r)
      end.
Proof.
  unfold tournament_rows, tournament_rows_within, tournament_rows_all.
  destruct timebin as [timebin|]; rewrite elem_of_ORDER_BY.
  - rewrite elem_of_WHERE. tauto.
  - tauto.
Qed.

Lemma holds_both_within start_ end_ q a1 a2 u1 u2 :
  holds (both_within start_ end_ (q, a1, a2, u1, u2)) ↔
    within start_ end_ (Post.creation_date a1)
    ∧ within start_ end_ (Post.creation_date a2).
Proof.
  unfold both_within. rewrite <-!holds_within, !holds_and. tauto.
Qed.

Lemma tournament_row_joined {R} (cursor : Cursor R) timebin q a1 a2 u1 u2 :
  q ∈ table_Post (connection cursor) →
  a1 ∈ table_Post (connection cursor) →
  a2 ∈ table_Post (connection cursor) →
  u1 ∈ table_se_user (connection cursor) →
  u2 ∈ table_se_user (connection cursor) →
  child_of q a1 → child_of q a2 → owned_by u1 a1 → owned_by u2 a2 →
  passes timebin a1 → passes timebin a2 →
  (q, a1, a2, u1, u2) ∈ tournament_rows timebin (connection cursor).
Proof.
  intros ????? Hc1 Hc2 Ho1 Ho2 Hp1 Hp2.
  apply elem_of_tournament_rows. split.
  - apply elem_of_tournament_join. rewrite !holds_eq. by split_and!.
  - destruct timebin; [|done]. by apply holds_both_within.
Qed.

Lemma users_by_tournament_lookup {R} (cursor : Cursor R) timebin i
    q a1 a2 u1 u2 :
  tournament_rows timebin (connection cursor) !! i = Some (q, a1, a2, u1, u2) →
  users_by_tournament cursor timebin !! i = Some (tournament a1 u1 a2 u2).
Proof.
  intros Hi. by rewrite users_by_tournament_rows, list_lookup_fmap, Hi.
Qed.

(** *** No constraint between the two answers, none on the post type *)

(** C4 (as the code has it): the join compares neither the two answers nor
    any post type, but it does require the parent row and both authors'
    rows to exist, and the time bin, when given, to hold both dates.  For
    every row [q] and rows [a1], [a2] whose [parent_id] is the id of [q],
    whatever their post types, with authors [u1], [u2] in [se_user] and
    dates that pass the time bin: the output holds the self-pair of [a1],
    the pair ([a1], [a2]) and the pair ([a2], [a1]), the last two at different
    positions when [a1] and [a2] are different rows. *)
Theorem users_by_tournament_unconstrained {R} (cursor : Cursor R)
    (timebin : option TimeBin) (q a1 a2 : Post.t) (u1 u2 : se_user.t) :
  q ∈ table_Post (connection cursor) →
  a1 ∈ table_Post (connection cursor) →
  a2 ∈ table_Post (connection cursor) →
  u1 ∈ table_se_user (connection cursor) →
  u2 ∈ table_se_user (connection cursor) →
  child_of q a1 → child_of q a2 → owned_by u1 a1 → owned_by u2 a2 →
  passes timebin a1 → passes timebin a2 →
  tournament a1 u1 a1 u1 ∈ users_by_tournament cursor timebin
  ∧ tournament a1 u1 a2 u2 ∈ users_by_tournament cursor timebin
  ∧ tournament a2 u2 a1 u1 ∈ users_by_tournament cursor timebin
  ∧ (a1 ≠ a2 → ∃ i j, i ≠ j
       ∧ users_by_tournament cursor timebin !! i = Some (tournament a1 u1 a2 u2)
       ∧ users_by_tournament cursor timebin !! j = Some (tournament a2 u2 a1 u1)).
Proof.
  intros Hq Ha1 Ha2 Hu1 Hu2 Hc1 Hc2 Ho1 Ho2 Hp1 Hp2.
  pose proof (tournament_row_joined cursor timebin q a1 a1 u1 u1) as H11.
  pose proof (tournament_row_joined cursor timebin q a1 a2 u1 u2) as H12.
  pose proof (tournament_row_joined cursor timebin q a2 a1 u2 u1) as H21.
  specialize (H11 Hq Ha1 Ha1 Hu1 Hu1 Hc1 Hc1 Ho1 Ho1 Hp1 Hp1).
  specialize (H12 Hq Ha1 Ha2 Hu1 Hu2 Hc1 Hc2 Ho1 Ho2 Hp1 Hp2).
  specialize (H21 Hq Ha2 Ha1 Hu2 Hu1 Hc2 Hc1 Ho2 Ho1 Hp2 Hp1).
  apply list_elem_of_lookup in H11 as [k Hk].
  apply list_elem_of_lookup in H12 as [i Hi].
  apply list_elem_of_lookup in H21 as [j Hj].
  split_and!.
  - eapply list_elem_of_lookup_2, users_by_tournament_lookup, Hk.
  - eapply list_elem_of_lookup_2, users_by_tournament_lookup, Hi.
  - eapply list_elem_of_lookup_2, users_by_tournament_lookup, Hj.
  - intros Hne. exists i, j. split_and!.
    + intros ->. rewrite Hi in Hj. by injection Hj as -> _.
    + by eapply users_by_tournament_lookup.
    + by eapply users_by_tournament_lookup.
Qed.

Lemma users_by_tournament_unconstrained_witness :
  let result := users_by_tournament (fresh_cursor forum) None in
  tournament answer1 user1 answer1 user1 ∈ result
  ∧ tournament answer1 user1 answer2 user2 ∈ result
  ∧ tournament answer2 user2 answer1 user1 ∈ result
  ∧ (answer1 ≠ answer2 → ∃ i j, i ≠ j
       ∧ result !! i = Some (tournament answer1 user1 answer2 user2)
       ∧ result !! j = Some (tournament answer2 user2 answer1 user1)).
Proof.
  apply (users_by_tournament_unconstrained (fresh_cursor forum) None
           question answer1 answer2 user1 user2); simpl.
  - by left.
  - right; by left.
  - right; right; by left.
  - by left.
  - right; by left.
  - by exists 10.
  - by exists 10.
  - by exists 1.
  - by exists 2.
  - exact I.
  - exact I.
Defined.

(** C4 (as stated) fails: [answer1] has a parent, the question, which is in
    the table, yet with its author missing from [se_user] the output holds
    no pair at all, so no self-pair of [answer1]. *)
Lemma users_by_tournament_orphan_answer :
  answer1 ∈ table_Post orphan_forum
  ∧ question ∈ table_Post orphan_forum
  ∧ child_of question answer1
  ∧ users_by_tournament (fresh_cursor orphan_forum) None = [].
Proof.
  split_and!.
  - right; by left.
  - by left.
  - by exists 10.
  - reflexivity.
Qed.

(** *** One question, two answers *)

Lemma NoDup_INNER_JOIN {A B} (left : list A) (right : list B) on :
  NoDup left → NoDup right → NoDup (INNER_JOIN left right on).
Proof.
  intros Hl Hr. unfold INNER_JOIN. apply NoDup_bind; [| |done].
  - intros a a' [a0 b] _ _ Hab Hab'.
    apply list_elem_of_bind in Hab as (? & [= -> ->]%list_elem_of_singleton & _).
    by apply list_elem_of_bind in Hab' as (? & [= -> _]%list_elem_of_singleton & _).
  - intros a _. apply NoDup_bind.
    + intros b b' ? _ _ ->%list_elem_of_singleton [= ->]%list_elem_of_singleton.
      done.
    + intros b _. apply NoDup_singleton.
    + by apply NoDup_filter.
Qed.

Lemma NoDup_tournament_join db :
  NoDup (table_Post db) → NoDup (table_se_user db) →
  NoDup (tournament_join db).
Proof.
  intros Hp Hu. unfold tournament_join.
  repeat (apply NoDup_INNER_JOIN; [|done]). done.
Qed.

(** Rows of a table with a unique key are found by their key. *)
Lemma unique_key {A K} (key : A → K) (rows : list A) r1 r2 :
  NoDup (key <$> rows) → r1 ∈ rows → r2 ∈ rows → key r1 = key r2 → r1 = r2.
Proof.
  intros Hnd [i Hi]%list_elem_of_lookup [j Hj]%list_elem_of_lookup Hk.
  assert (i = j) as ->; [|congruence].
  apply (NoDup_lookup (key <$> rows) i j (key r1)); [done| |].
  - by rewrite list_lookup_fmap, Hi.
  - by rewrite list_lookup_fmap, Hj, Hk.
Qed.

(** The first row of a sorted list comes before all the others. *)
Lemma sorted_head {A} (key : A → sqlval) r rows r' :
  StronglySorted (by_key key) (r :: rows) → r' ∈ rows →
  sql_le (key r) (key r').
Proof.
  intros [_ Hall]%StronglySorted_inv Hr'.
  by apply (proj1 (Forall_forall _ _) Hall).
Qed.

Section one_question.
(** The dataset of the scenario: the [Post] table holds, in any order, one
    question [Q] and its two answers [A1] (user 1, score 3, day 2) and [A2]
    (user 2, score 5, day 3), under ids other than the question's; [se_user]
    has unique ids, 1 and 2 among them. *)
Context {R : Type} (cursor : Cursor R).
Context (Q A1 A2 : Post.t) (question_id : Z).
Let posts := table_Post (connection cursor).
Let users := table_se_user (connection cursor).
Hypothesis posts_are : posts ≡ₚ [Q; A1; A2].
Hypothesis Q_id : Post.id Q = Some question_id.
Hypothesis Q_parent : Post.parent_id Q = NULL.
Hypothesis A1_id : Post.id A1 ≠ Some question_id.
Hypothesis A1_parent : Post.parent_id A1 = Some question_id.
Hypothesis A1_owner : Post.owner_user_id A1 = Some 1.
Hypothesis A1_score : Post.score A1 = Some 3.
Hypothesis A1_date : Post.creation_date A1 = Some 2.
Hypothesis A2_id : Post.id A2 ≠ Some question_id.
Hypothesis A2_parent : Post.parent_id A2 = Some question_id.
Hypothesis A2_owner : Post.owner_user_id A2 = Some 2.
Hypothesis A2_score : Post.score A2 = Some 5.
Hypothesis A2_date : Post.creation_date A2 = Some 3.
Hypothesis users_unique : NoDup (se_user.id <$> users).
Hypothesis user1_present : Some 1 ∈ se_user.id <$> users.
Hypothesis user2_present : Some 2 ∈ se_user.id <$> users.

Local Lemma elem_of_posts p : p ∈ posts ↔ p = Q ∨ p = A1 ∨ p = A2.
Proof. rewrite posts_are. set_solver. Qed.

Local Lemma NoDup_posts : NoDup posts.
Proof.
  rewrite posts_are. repeat apply NoDup_cons_2; try apply NoDup_nil_2;
    set_solver.
Qed.

Local Lemma joined_to_Q q a :
  q ∈ posts → a ∈ posts → holds (Post.id q =ₛ Post.parent_id a) →
  q = Q ∧ (a = A1 ∨ a = A2).
Proof.
  rewrite !elem_of_posts, holds_eq. intros Hq Ha (k & Hid & Hpar).
  destruct Ha as [->| [->| ->]]; [congruence| |];
    (destruct Hq as [->| [->| ->]]; [tauto|congruence|congruence]).
Qed.

Local Lemma author_of u a k :
  u ∈ users → Post.owner_user_id a = Some k →
  holds (se_user.id u =ₛ Post.owner_user_id a) → se_user.id u = Some k.
Proof. rewrite holds_eq. intros _ Ha (k' & -> & Hk). congruence. Qed.

Local Lemma scenario_join u1 u2 :
  u1 ∈ users → se_user.id u1 = Some 1 →
  u2 ∈ users → se_user.id u2 = Some 2 →
  tournament_join (connection cursor)
    ≡ₚ [(Q, A1, A1, u1, u1); (Q, A1, A2, u1, u2);
        (Q, A2, A1, u2, u1); (Q, A2, A2, u2, u2)].
Proof.
  intros Hu1 Hid1 Hu2 Hid2.
  assert (A1 ≠ A2) as Hne by congruence.
  apply NoDup_Permutation.
  - apply NoDup_tournament_join; [apply NoDup_posts|].
    by eapply NoDup_fmap_1.
  - repeat apply NoDup_cons_2; try apply NoDup_nil_2; set_solver.
  - intros [[[[q a1] a2] v1] v2]. rewrite elem_of_tournament_join. split.
    + intros (Hq & Ha1 & Ha2 & Hv1 & Hv2 & Hj1 & Hj2 & Ho1 & Ho2).
      destruct (joined_to_Q q a1 Hq Ha1 Hj1) as [-> Hcase1].
      destruct (joined_to_Q Q a2 Hq Ha2 Hj2) as [_ Hcase2].
      assert (∀ v a, v ∈ users → holds (se_user.id v =ₛ Post.owner_user_id a) →
                (a = A1 → v = u1) ∧ (a = A2 → v = u2)) as Hauthor.
      { intros v a Hv Ho. split; intros ->.
        - apply (unique_key se_user.id users); [done..|].
          rewrite Hid1. by eapply author_of.
        - apply (unique_key se_user.id users); [done..|].
          rewrite Hid2. by eapply author_of. }
      destruct (Hauthor v1 a1 Hv1 Ho1) as [Hv11 Hv12].
      destruct (Hauthor v2 a2 Hv2 Ho2) as [Hv21 Hv22].
      destruct Hcase1 as [->| ->], Hcase2 as [->| ->];
        rewrite ?(Hv11 eq_refl), ?(Hv12 eq_refl), ?(Hv21 eq_refl),
          ?(Hv22 eq_refl), !elem_of_cons; auto 10.
    + assert (Q ∈ posts ∧ A1 ∈ posts ∧ A2 ∈ posts) as (? & ? & ?)
        by (rewrite !elem_of_posts; tauto).
      rewrite !elem_of_cons, elem_of_nil, !holds_eq.
      intros [[= -> -> -> -> ->]| [[= -> -> -> -> ->]|
             [[= -> -> -> -> ->]| [[= -> -> -> -> ->]| []]]]];
        split_and!; eauto.
Qed.

(** C1 (as the code has it): on that dataset [users_by_tournament] without a
    time bin yields four pairs, not one: first the self-pair of A1, whose
    later date is day 2, then, in the order the store leaves the ties of
    day 3, the pair (A1, A2), its mirror (A2, A1) and the self-pair of A2. *)
Theorem users_by_tournament_one_question :
  ∃ rest,
    users_by_tournament cursor None
      = ((Some 1, Some 3), (Some 1, Some 3)) :: rest
    ∧ rest ≡ₚ [((Some 1, Some 3), (Some 2, Some 5));
               ((Some 2, Some 5), (Some 1, Some 3));
               ((Some 2, Some 5), (Some 2, Some 5))].
Proof.
  destruct (proj1 (list_elem_of_fmap _ _ _) user1_present) as (u1 & Hid1 & Hu1).
  destruct (proj1 (list_elem_of_fmap _ _ _) user2_present) as (u2 & Hid2 & Hu2).
  symmetry in Hid1, Hid2.
  pose proof (scenario_join u1 u2 Hu1 Hid1 Hu2 Hid2) as Hjoin.
  pose proof (ORDER_BY_sorted later_date (tournament_join (connection cursor)))
    as Hsorted.
  rewrite users_by_tournament_rows.
  unfold tournament_rows, tournament_rows_all.
  rewrite <-(ORDER_BY_Permutation later_date) in Hjoin.
  destruct (ORDER_BY later_date _) as [|r rows]; [by apply Permutation_nil_cons in Hjoin|].
  assert (r = (Q, A1, A1, u1, u1)) as ->.
  { assert (r ∈ r :: rows) as Hr by by left.
    assert ((Q, A1, A1, u1, u1) ∈ r :: rows) as [->|Hin]%elem_of_cons
      by (rewrite Hjoin; by left); [done|].
    pose proof (sorted_head later_date _ _ _ Hsorted Hin) as Hle.
    rewrite Hjoin, !elem_of_cons, elem_of_nil in Hr.
    destruct Hr as [->| [->| [->| [->| []]]]]; [done|..];
      simpl in Hle; rewrite ?A1_date, ?A2_date in Hle; simpl in Hle; lia. }
  apply Permutation_cons_inv in Hjoin.
  eexists. split.
  - simpl. unfold tournament. by rewrite Hid1, A1_score.
  - rewrite Hjoin. simpl. by rewrite Hid1, Hid2, A1_score, A2_score.
Qed.
End one_question.

Lemma users_by_tournament_one_question_witness :
  ∃ rest,
    users_by_tournament (fresh_cursor forum) None
      = ((Some 1, Some 3), (Some 1, Some 3)) :: rest
    ∧ rest ≡ₚ [((Some 1, Some 3), (Some 2, Some 5));
               ((Some 2, Some 5), (Some 1, Some 3));
               ((Some 2, Some 5), (Some 2, Some 5))].
Proof.
  apply (users_by_tournament_one_question (fresh_cursor forum)
           question answer1 answer2 10); simpl; try done.
  - repeat apply NoDup_cons_2; try apply NoDup_nil_2; set_solver.
  - by left.
  - right; by left.
Defined.

(** C1 (as stated) fails: on the scenario's dataset the output has four
    elements, the expected pair being the second. *)
Lemma users_by_tournament_scenario_output :
  users_by_tournament (fresh_cursor forum) None
    = [((Some 1, Some 3), (Some 1, Some 3));
       ((Some 1, Some 3), (Some 2, Some 5));
       ((Some 2, Some 5), (Some 1, Some 3));
       ((Some 2, Some 5), (Some 2, Some 5))]
  ∧ users_by_tournament (fresh_cursor forum) None
    ≠ [((Some 1, Some 3), (Some 2, Some 5))].
Proof. split; [reflexivity|]. intros [=]. Qed.

(** * Further properties *)

(** ** More on the combinators *)

Lemma WHERE_all_cons {A} (cond : A → tribool) r rows :
  WHERE cond (r :: rows)
    = if holds (cond r) then r :: WHERE cond rows else WHERE cond rows.
Proof.
  unfold WHERE. rewrite filter_cons.
  destruct (holds (cond r)); by case_decide.
Qed.

(** A condition that is the disjunction of two exclusive ones splits the
    selected rows in two. *)
Lemma WHERE_split {A} (cond c1 c2 : A → tribool) rows :
  (∀ r, holds (cond r) ↔ holds (c1 r) ∨ holds (c2 r)) →
  (∀ r, holds (c1 r) → holds (c2 r) → False) →
  WHERE cond rows ≡ₚ WHERE c1 rows ++ WHERE c2 rows.
Proof.
  intros Hor Hexcl. induction rows as [|r rows IH]; [done|].
  rewrite !WHERE_all_cons.
  specialize (Hor r). specialize (Hexcl r).
  destruct (holds (cond r)), (holds (c1 r)), (holds (c2 r)); simpl in *;
    try tauto.
  - by f_equiv.
  - by rewrite <-Permutation_middle, IH.
Qed.

(** A stronger condition selects a subsequence. *)
Lemma WHERE_stronger {A} (c1 c2 : A → tribool) rows :
  (∀ r, holds (c1 r) → holds (c2 r)) →
  sublist (WHERE c1 rows) (WHERE c2 rows).
Proof.
  intros Himp. unfold WHERE.
  rewrite <-(list_filter_filter_l (λ r, holds (c1 r)) (λ r, holds (c2 r)))
    by done.
  apply sublist_filter.
Qed.

Lemma elem_of_SELECT_WHERE {A B} (columns : A → B) cond rows y :
  y ∈ SELECT columns (WHERE cond rows) ↔
    ∃ r, r ∈ rows ∧ columns r = y ∧ holds (cond r).
Proof.
  unfold SELECT. rewrite list_elem_of_fmap. split.
  - intros (r & -> & [??]%elem_of_WHERE). eauto.
  - intros (r & ? & <- & ?). exists r. by rewrite elem_of_WHERE.
Qed.

(** ** posts_by_type *)

(** What the generator of [posts_by_type] yields, without the cursor. *)
Lemma posts_by_type_rows {R} (cursor : Cursor R) post_type :
  posts_by_type cursor post_type
    = posts_by_type_query (default 1 post_type) (connection cursor).
Proof.
  unfold posts_by_type, iterate, execute. cbn [result_set connection].
  destruct post_type; cbn [default from_option];
    (etrans; [|apply list_fmap_id]); apply list_fmap_ext; by intros ? [].
Qed.

(** X1: [posts_by_type] yields the pair (id, owner) of exactly the posts
    whose type is the requested one, and of the questions (type 1) when no
    type is given; a post whose type is NULL is yielded for no type. *)
Theorem posts_by_type_yields {R} (cursor : Cursor R) (post_type : option Z)
    (post_id owner : sqlval) :
  (post_id, owner) ∈ posts_by_type cursor post_type ↔
    ∃ p, p ∈ table_Post (connection cursor)
         ∧ Post.id p = post_id ∧ Post.owner_user_id p = owner
         ∧ Post.post_type_id p = Some (match post_type with
                                       | None => 1
                                       | Some t => t
                                       end).
Proof.
  rewrite posts_by_type_rows. unfold posts_by_type_query.
  rewrite elem_of_SELECT_WHERE. split.
  - intros (p & ? & [= <- <-] & (t & Ht & [= <-])%holds_eq).
    exists p. by destruct post_type.
  - intros (p & ? & <- & <- & Ht). exists p. split_and!; [done..|].
    apply holds_eq. eexists. split; [done|]. by destruct post_type.
Qed.

(** X2: for a post type that no row of [Post] has, [posts_by_type] yields the
    empty sequence. *)
Theorem posts_by_type_absent {R} (cursor : Cursor R) (post_type : Z) :
  (∀ p, p ∈ table_Post (connection cursor) →
        Post.post_type_id p ≠ Some post_type) →
  posts_by_type cursor (Some post_type) = [].
Proof.
  intros Habsent. rewrite posts_by_type_rows.
  unfold posts_by_type_query, SELECT. rewrite WHERE_none; [done|].
  intros p Hp (t & Ht & [= <-])%holds_eq. by apply (Habsent p).
Qed.

Lemma posts_by_type_absent_witness :
  posts_by_type (fresh_cursor forum) (Some 3) = [].
Proof.
  apply (posts_by_type_absent (fresh_cursor forum) 3).
  intros p. simpl. rewrite !elem_of_cons, elem_of_nil.
  intros [->| [->| [->| []]]]; done.
Defined.

(** X3: no post is yielded under two types: for different types the two
    outputs together are, as a multiset, part of the table's (id, owner)
    pairs. *)
Theorem posts_by_type_exclusive {R} (cursor : Cursor R) (type1 type2 : Z) :
  type1 ≠ type2 →
  posts_by_type cursor (Some type1) ++ posts_by_type cursor (Some type2)
    ⊆+ (λ p, (Post.id p, Post.owner_user_id p))
         <$> table_Post (connection cursor).
Proof.
  intros Hne. rewrite !posts_by_type_rows. cbn [default from_option].
  unfold posts_by_type_query, SELECT. rewrite <-fmap_app.
  apply fmap_submseteq.
  rewrite <-(WHERE_split
               (λ p, match Post.post_type_id p with
                     | Some t => Some (bool_decide (t = type1 ∨ t = type2))
                     | None => None
                     end)).
  - apply sublist_submseteq, WHERE_sublist.
  - intros p. rewrite !holds_eq. destruct (Post.post_type_id p) as [t|]; simpl.
    + case_bool_decide; simpl; naive_solver.
    + naive_solver.
  - intros p (t & Ht & [= <-])%holds_eq (t' & Ht' & [= <-])%holds_eq.
    congruence.
Qed.

Lemma posts_by_type_exclusive_witness :
  posts_by_type (fresh_cursor forum) (Some 1)
    ++ posts_by_type (fresh_cursor forum) (Some 2)
    ⊆+ (λ p, (Post.id p, Post.owner_user_id p)) <$> table_Post forum.
Proof. by apply (posts_by_type_exclusive (fresh_cursor forum) 1 2). Defined.

(** ** posts_within_timebin *)

Lemma posts_within_timebin_rows {R} (cursor : Cursor R) timebin :
  posts_within_timebin cursor timebin
    = posts_within_timebin_query (start timebin) (end_ timebin)
        (connection cursor).
Proof.
  unfold posts_within_timebin, iterate, execute. cbn [result_set connection].
  apply list_fmap_id.
Qed.

(** X4: [posts_within_timebin] yields the id of exactly the posts dated
    strictly between the two bounds: a post dated at the start or at the
    end of the bin, or with no date, is left out. *)
Theorem posts_within_timebin_yields {R} (cursor : Cursor R)
    (timebin : TimeBin) (post_id : sqlval) :
  post_id ∈ posts_within_timebin cursor timebin ↔
    ∃ p d, p ∈ table_Post (connection cursor) ∧ Post.id p = post_id
           ∧ Post.creation_date p = Some d
           ∧ start timebin < d ∧ d < end_ timebin.
Proof.
  rewrite posts_within_timebin_rows. unfold posts_within_timebin_query.
  rewrite elem_of_SELECT_WHERE. split.
  - intros (p & ? & <- & (d & ? & ? & ?)%holds_within). by exists p, d.
  - intros (p & d & ? & <- & ? & ? & ?). exists p. split_and!; [done..|].
    apply holds_within. by exists d.
Qed.

(** X5: a time bin inside another yields, as a multiset, part of what the
    outer bin yields (the two queries have no ORDER BY, so nothing is said
    about the order). *)
Theorem posts_within_timebin_nested {R} (cursor : Cursor R)
    (inner outer : TimeBin) :
  start outer ≤ start inner → end_ inner ≤ end_ outer →
  posts_within_timebin cursor inner ⊆+ posts_within_timebin cursor outer.
Proof.
  intros Hs He. rewrite !posts_within_timebin_rows.
  unfold posts_within_timebin_query, SELECT.
  apply fmap_submseteq, sublist_submseteq, WHERE_stronger.
  intros p (d & ? & ?)%holds_within. apply holds_within. exists d.
  split; [done|lia].
Qed.

Lemma posts_within_timebin_nested_witness :
  posts_within_timebin (fresh_cursor forum) {| start := 1; end_ := 3 |}
    ⊆+ posts_within_timebin (fresh_cursor forum) {| start := 0; end_ := 4 |}.
Proof.
  apply (posts_within_timebin_nested (fresh_cursor forum)
           {| start := 1; end_ := 3 |} {| start := 0; end_ := 4 |});
    simpl; lia.
Defined.

Lemma holds_within_Some start_ end_ d :
  holds (Some d >ₛ Some start_ AND Some d <ₛ Some end_)
    = bool_decide (start_ < d < end_).
Proof.
  pose proof (holds_within start_ end_ (Some d)) as Hw. unfold within in Hw.
  destruct (holds _); case_bool_decide; try done.
  - destruct (proj1 Hw I) as (? & [= <-] & ?). lia.
  - destruct (proj2 Hw); eauto.
Qed.

Lemma WHERE_adjacent {A} (date : A → sqlval) (a b c : Z) rows :
  a < b → b < c →
  WHERE (λ r, date r >ₛ Some a AND date r <ₛ Some c) rows
    ≡ₚ WHERE (λ r, date r >ₛ Some a AND date r <ₛ Some b) rows
       ++ WHERE (λ r, date r >ₛ Some b AND date r <ₛ Some c) rows
       ++ filter (λ r, date r = Some b) rows.
Proof.
  intros Hab Hbc. induction rows as [|r rows IH]; [done|].
  rewrite !WHERE_all_cons, filter_cons.
  destruct (date r) as [d|]; [|by case_decide].
  rewrite !holds_within_Some.
  assert (Some d = Some b ↔ d = b) as Hdb by naive_solver.
  repeat case_bool_decide; case_decide as Hd; rewrite Hdb in Hd; rewrite ?IH;
    try (exfalso; lia).
  - done.
  - cbn [app]. by rewrite <-Permutation_middle.
  - by rewrite <-!Permutation_middle.
  - done.
Qed.

(** X6: two bins that share a bound do not cover the bin that spans them:
    for [a < b < c] the posts of the bin (a, c) are those of (a, b), those
    of (b, c), and the posts dated exactly [b], which neither part has. *)
Theorem posts_within_timebin_adjacent {R} (cursor : Cursor R) (a b c : Z) :
  a < b → b < c →
  posts_within_timebin cursor {| start := a; end_ := c |}
    ≡ₚ posts_within_timebin cursor {| start := a; end_ := b |}
       ++ posts_within_timebin cursor {| start := b; end_ := c |}
       ++ (Post.id <$> filter (λ p, Post.creation_date p = Some b)
                         (table_Post (connection cursor))).
Proof.
  intros Hab Hbc. rewrite !posts_within_timebin_rows. cbn [start end_].
  unfold posts_within_timebin_query, SELECT. rewrite <-!fmap_app.
  apply fmap_Permutation. by apply WHERE_adjacent.
Qed.

Lemma posts_within_timebin_adjacent_witness :
  posts_within_timebin (fresh_cursor forum) {| start := 0; end_ := 4 |}
    ≡ₚ posts_within_timebin (fresh_cursor forum) {| start := 0; end_ := 2 |}
       ++ posts_within_timebin (fresh_cursor forum) {| start := 2; end_ := 4 |}
       ++ (Post.id <$> filter (λ p, Post.creation_date p = Some 2)
                         (table_Post (connection (fresh_cursor forum)))).
Proof.
  apply (posts_within_timebin_adjacent (fresh_cursor forum) 0 2 4); lia.
Defined.

(** ** posts_by_user *)

Lemma posts_by_user_rows {R} (cursor : Cursor R) user_id timebin :
  posts_by_user cursor user_id timebin
    = match timebin with
      | None => posts_by_user_query user_id (connection cursor)
      | Some timebin =>
          posts_by_user_timebin_query user_id (start timebin) (end_ timebin)
            (connection cursor)
      end.
Proof.
  unfold posts_by_user, iterate, execute.
  destruct timebin; cbn [result_set connection]; apply list_fmap_id.
Qed.

Lemma holds_owner_within user_id start_ end_ p :
  holds (Post.owner_user_id p =ₛ Some user_id
         AND Post.creation_date p >ₛ Some start_
         AND Post.creation_date p <ₛ Some end_) ↔
    Post.owner_user_id p = Some user_id
    ∧ within start_ end_ (Post.creation_date p).
Proof. rewrite holds_and, holds_eq, holds_within. naive_solver. Qed.

(** X7: for every user and time bin, what [posts_by_user] yields with the
    bin is, as a multiset, part of what [posts_within_timebin] yields for
    the same bin (neither query has an ORDER BY, so nothing is said about
    the order). *)
Theorem posts_by_user_within_timebin {R} (cursor : Cursor R) (user_id : Z)
    (timebin : TimeBin) :
  posts_by_user cursor user_id (Some timebin)
    ⊆+ posts_within_timebin cursor timebin.
Proof.
  rewrite posts_by_user_rows, posts_within_timebin_rows.
  unfold posts_by_user_timebin_query, posts_within_timebin_query, SELECT.
  apply fmap_submseteq, sublist_submseteq, WHERE_stronger.
  intros p [_ ?]%holds_owner_within. by apply holds_within.
Qed.

(** X8: [posts_by_user] yields the id of exactly the posts whose owner is
    the given user and whose date passes the time bin, if one is given; a
    post without an owner is yielded for no user. *)
Theorem posts_by_user_yields {R} (cursor : Cursor R) (user_id : Z)
    (timebin : option TimeBin) (post_id : sqlval) :
  post_id ∈ posts_by_user cursor user_id timebin ↔
    ∃ p, p ∈ table_Post (connection cursor) ∧ Post.id p = post_id
         ∧ Post.owner_user_id p = Some user_id ∧ passes timebin p.
Proof.
  rewrite posts_by_user_rows.
  destruct timebin as [timebin|];
    unfold posts_by_user_timebin_query, posts_by_user_query, passes;
    rewrite elem_of_SELECT_WHERE;
    [setoid_rewrite holds_owner_within|setoid_rewrite holds_eq];
    naive_solver.
Qed.

(** ** users_above_threshold *)

(** X9: raising the threshold only removes users: the output for the higher
    threshold is, as a multiset, part of the output for the lower one (the
    query has no ORDER BY, so nothing is said about the order). *)
Theorem users_above_threshold_antitone {R} (cursor : Cursor R)
    (lower higher : Z) :
  lower ≤ higher →
  users_above_threshold cursor higher ⊆+ users_above_threshold cursor lower.
Proof.
  intros Hle. unfold users_above_threshold, iterate, execute.
  cbn [result_set connection]. rewrite !fmap_result.
  unfold users_above_threshold_query, SELECT.
  apply fmap_submseteq, sublist_submseteq, WHERE_stronger.
  intros u (r & ? & ?)%holds_gt. apply holds_gt. exists r. split; [done|lia].
Qed.

Lemma users_above_threshold_antitone_witness :
  users_above_threshold (fresh_cursor forum) 100
    ⊆+ users_above_threshold (fresh_cursor forum) 50.
Proof.
  apply (users_above_threshold_antitone (fresh_cursor forum) 50 100). lia.
Defined.

(** ** users_in_post *)

Lemma users_in_post_rows {R} (cursor : Cursor R) post_id timebin :
  users_in_post cursor post_id timebin
    = match timebin with
      | None => users_in_post_query post_id (connection cursor)
      | Some timebin =>
          users_in_post_timebin_query post_id (start timebin) (end_ timebin)
            (connection cursor)
      end.
Proof.
  unfold users_in_post, iterate, execute.
  destruct timebin; cbn [result_set connection]; apply list_fmap_id.
Qed.

Lemma holds_answers post_id t1 t2 :
  holds (Post.parent_id t1 =ₛ Post.id t2)
  ∧ holds (Post.post_type_id t1 =ₛ Some 2
           AND Post.post_type_id t2 =ₛ Some 1
           AND Post.id t2 =ₛ Some post_id) ↔
    answers post_id t1 t2.
Proof. unfold answers. rewrite !holds_and, !holds_eq. naive_solver. Qed.

Lemma holds_answers_within post_id start_ end_ t1 t2 :
  holds (Post.parent_id t1 =ₛ Post.id t2)
  ∧ holds (Post.post_type_id t1 =ₛ Some 2
           AND Post.post_type_id t2 =ₛ Some 1
           AND Post.id t2 =ₛ Some post_id
           AND Post.creation_date t1 >ₛ Some start_
           AND Post.creation_date t1 <ₛ Some end_) ↔
    answers post_id t1 t2 ∧ within start_ end_ (Post.creation_date t1).
Proof.
  unfold answers. rewrite !holds_and, !holds_eq, <-holds_within, holds_and.
  naive_solver.
Qed.

Lemma elem_of_users_in_post {R} (cursor : Cursor R) post_id timebin user_id :
  user_id ∈ users_in_post cursor post_id timebin ↔
    ∃ answer question,
      answer ∈ table_Post (connection cursor)
      ∧ question ∈ table_Post (connection cursor)
      ∧ Post.owner_user_id answer = user_id
      ∧ answers post_id answer question
      ∧ passes timebin answer.
Proof.
  rewrite users_in_post_rows.
  destruct timebin as [timebin|];
    unfold users_in_post_timebin_query, users_in_post_query, DISTINCT, passes;
    rewrite elem_of_remove_dups, elem_of_SELECT_WHERE.
  - split.
    + intros ([t1 t2] & (? & ? & ?)%elem_of_INNER_JOIN & <- & ?).
      exists t1, t2. split_and!; try done;
        by eapply holds_answers_within.
    + intros (t1 & t2 & ? & ? & <- & ? & ?). exists (t1, t2).
      rewrite elem_of_INNER_JOIN.
      destruct (proj2 (holds_answers_within post_id (start timebin)
                         (end_ timebin) t1 t2)) as [??]; done.
  - split.
    + intros ([t1 t2] & (? & ? & ?)%elem_of_INNER_JOIN & <- & ?).
      exists t1, t2. split_and!; try done. by eapply holds_answers.
    + intros (t1 & t2 & ? & ? & <- & ? & _). exists (t1, t2).
      rewrite elem_of_INNER_JOIN.
      destruct (proj2 (holds_answers post_id t1 t2)) as [??]; done.
Qed.

(** X10: [users_in_post] yields exactly the owners of the posts of type 2
    whose parent is the given id, provided a post of type 1 has that id, and
    whose date passes the time bin, if one is given.  The owner is yielded as
    it is stored: an answer without an owner contributes [None]. *)
Theorem users_in_post_yields {R} (cursor : Cursor R) (post_id : Z)
    (timebin : option TimeBin) (user_id : sqlval) :
  user_id ∈ users_in_post cursor post_id timebin ↔
    ∃ answer question,
      answer ∈ table_Post (connection cursor)
      ∧ question ∈ table_Post (connection cursor)
      ∧ Post.owner_user_id answer = user_id
      ∧ Post.post_type_id answer = Some 2
      ∧ Post.post_type_id question = Some 1
      ∧ Post.id question = Some post_id
      ∧ Post.parent_id answer = Some post_id
      ∧ passes timebin answer.
Proof.
  rewrite elem_of_users_in_post. unfold answers.
  split; intros (answer & question & H); exists answer, question; tauto.
Qed.

(** X11: when the id is not that of a question (no post of type 1 has it),
    [users_in_post] yields nothing, whatever posts name it as their parent. *)
Theorem users_in_post_not_a_question {R} (cursor : Cursor R) (post_id : Z)
    (timebin : option TimeBin) :
  (∀ p, p ∈ table_Post (connection cursor) → Post.id p = Some post_id →
        Post.post_type_id p ≠ Some 1) →
  users_in_post cursor post_id timebin = [].
Proof.
  intros Hnone. apply elem_of_nil_inv. intros user_id.
  rewrite elem_of_users_in_post.
  intros (answer & question & _ & Hq & _ & (_ & Htype & Hid & _) & _).
  by apply (Hnone question).
Qed.

Lemma users_in_post_not_a_question_witness :
  users_in_post (fresh_cursor forum) 11 None = [].
Proof.
  apply (users_in_post_not_a_question (fresh_cursor forum) 11 None).
  intros p. simpl. rewrite !elem_of_cons, elem_of_nil.
  intros [->| [->| [->| []]]]; done.
Defined.

(** X12: with a time bin [users_in_post] yields no user that it does not
    yield without one (the order of the users may differ). *)
Theorem users_in_post_timebin_subset {R} (cursor : Cursor R) (post_id : Z)
    (timebin : TimeBin) :
  users_in_post cursor post_id (Some timebin)
    ⊆+ users_in_post cursor post_id None.
Proof.
  apply NoDup_submseteq.
  - rewrite users_in_post_rows. apply NoDup_remove_dups.
  - intros user_id. rewrite !elem_of_users_in_post.
    intros (answer & question & ? & ? & ? & ? & _).
    by exists answer, question.
Qed.

(** X13: a user that [users_in_post] reports for a question has a post that
    [posts_by_user] yields for the same time bin. *)
Theorem users_in_post_posts_by_user {R} (cursor : Cursor R) (post_id : Z)
    (timebin : option TimeBin) (user_id : Z) :
  Some user_id ∈ users_in_post cursor post_id timebin →
  ∃ post, post ∈ posts_by_user cursor user_id timebin.
Proof.
  rewrite elem_of_users_in_post.
  intros (answer & _ & Ha & _ & Howner & _ & Hpasses).
  exists (Post.id answer). rewrite posts_by_user_rows.
  destruct timebin as [timebin|];
    unfold posts_by_user_timebin_query, posts_by_user_query;
    apply elem_of_SELECT_WHERE; exists answer; split_and!; try done.
  - by apply holds_owner_within.
  - apply holds_eq. by exists user_id.
Qed.

Lemma users_in_post_posts_by_user_witness :
  Some 1 ∈ users_in_post (fresh_cursor forum) 10 None
  ∧ ∃ post, post ∈ posts_by_user (fresh_cursor forum) 1 None.
Proof.
  assert (Some 1 ∈ users_in_post (fresh_cursor forum) 10 None) as Hin
    by (vm_compute; by left).
  split; [done|].
  by apply (users_in_post_posts_by_user (fresh_cursor forum) 10 None 1).
Defined.

(** ** users_by_tournament, continued *)

Lemma holds_child_of q a : holds (Post.id q =ₛ Post.parent_id a) ↔ child_of q a.
Proof. apply holds_eq. Qed.

Lemma holds_owned_by u a :
  holds (se_user.id u =ₛ Post.owner_user_id a) ↔ owned_by u a.
Proof. apply holds_eq. Qed.

Lemma tournament_row_conditions {R} (cursor : Cursor R) timebin q a1 a2 u1 u2 :
  (q, a1, a2, u1, u2) ∈ tournament_rows timebin (connection cursor) ↔
    q ∈ table_Post (connection cursor)
    ∧ a1 ∈ table_Post (connection cursor)
    ∧ a2 ∈ table_Post (connection cursor)
    ∧ u1 ∈ table_se_user (connection cursor)
    ∧ u2 ∈ table_se_user (connection cursor)
    ∧ child_of q a1 ∧ child_of q a2 ∧ owned_by u1 a1 ∧ owned_by u2 a2
    ∧ passes timebin a1 ∧ passes timebin a2.
Proof.
  rewrite elem_of_tournament_rows, elem_of_tournament_join,
    !holds_child_of, !holds_owned_by.
  destruct timebin as [timebin|]; [rewrite holds_both_within|];
    unfold passes; tauto.
Qed.

(** X14: every pair [users_by_tournament] yields comes from two posts, equal
    or not, whose parent is one and the same post of the table, each joined
    to a row of [se_user] as its owner, both dated inside the time bin when
    one is given; and every such combination is yielded. *)
Theorem users_by_tournament_yields {R} (cursor : Cursor R)
    (timebin : option TimeBin) (pair : (sqlval * sqlval) * (sqlval * sqlval)) :
  pair ∈ users_by_tournament cursor timebin ↔
    ∃ q a1 a2 u1 u2,
      q ∈ table_Post (connection cursor)
      ∧ a1 ∈ table_Post (connection cursor)
      ∧ a2 ∈ table_Post (connection cursor)
      ∧ u1 ∈ table_se_user (connection cursor)
      ∧ u2 ∈ table_se_user (connection cursor)
      ∧ child_of q a1 ∧ child_of q a2 ∧ owned_by u1 a1 ∧ owned_by u2 a2
      ∧ passes timebin a1 ∧ passes timebin a2
      ∧ pair = tournament a1 u1 a2 u2.
Proof.
  rewrite users_by_tournament_rows, list_elem_of_fmap. split.
  - intros ([[[[q a1] a2] u1] u2] & -> & Hrow%tournament_row_conditions).
    exists q, a1, a2, u1, u2. by split_and!; try apply Hrow.
  - intros (q & a1 & a2 & u1 & u2 & H). exists (q, a1, a2, u1, u2).
    split; [apply H|]. apply tournament_row_conditions. tauto.
Qed.

(** X15: both user ids of every pair [users_by_tournament] yields are
    actual ids: a post without an owner never enters a pair. *)
Theorem users_by_tournament_ids_known {R} (cursor : Cursor R)
    (timebin : option TimeBin) :
  Forall (λ pair, is_Some pair.1.1 ∧ is_Some pair.2.1)
    (users_by_tournament cursor timebin).
Proof.
  apply Forall_forall. intros pair.
  rewrite users_by_tournament_rows, list_elem_of_fmap.
  intros ([[[[q a1] a2] u1] u2] & -> & Hrow%tournament_row_conditions).
  destruct Hrow as (_ & _ & _ & _ & _ & _ & _ & (k1 & Hk1 & _) & (k2 & Hk2 & _) & _).
  simpl. rewrite Hk1, Hk2. split; eauto.
Qed.

(** X16: with a time bin [users_by_tournament] yields, as a multiset, part
    of what it yields without one. *)
Theorem users_by_tournament_timebin_subset {R} (cursor : Cursor R)
    (timebin : TimeBin) :
  users_by_tournament cursor (Some timebin)
    ⊆+ users_by_tournament cursor None.
Proof.
  rewrite !users_by_tournament_rows. apply fmap_submseteq.
  unfold tournament_rows, tournament_rows_within, tournament_rows_all.
  rewrite !ORDER_BY_Permutation. apply sublist_submseteq, WHERE_sublist.
Qed.

(** *** The mirror of a pair *)

Lemma list_bind_assoc {A B C} (f : A → list B) (g : B → list C) (l : list A) :
  (l ≫= f) ≫= g = l ≫= (λ x, f x ≫= g).
Proof.
  induction l as [|x l IH]; [done|]. csimpl. by rewrite bind_app, IH.
Qed.

Lemma list_fmap_as_bind {A B} (f : A → B) (l : list A) :
  f <$> l = l ≫= (λ x, [f x]).
Proof. induction l as [|x l IH]; [done|]. csimpl. by rewrite IH. Qed.

Lemma bind_Permutation_ext {A B} (f g : A → list B) (l : list A) :
  (∀ x, f x ≡ₚ g x) → l ≫= f ≡ₚ l ≫= g.
Proof.
  intros Hfg. induction l as [|x l IH]; [done|]. csimpl. by rewrite Hfg, IH.
Qed.

Lemma bind_app_Permutation {A B} (f g : A → list B) (l : list A) :
  l ≫= (λ x, f x ++ g x) ≡ₚ (l ≫= f) ++ (l ≫= g).
Proof.
  induction l as [|x l IH]; [done|]. csimpl. rewrite IH.
  rewrite <-!(assoc (++)). f_equiv. rewrite !(assoc (++)). f_equiv.
  apply Permutation_app_comm.
Qed.

(** Two nested loops that do not depend on each other can be exchanged. *)
Lemma bind_exchange {A B C} (f : A → B → list C) (l1 : list A) (l2 : list B) :
  l1 ≫= (λ a, l2 ≫= (λ b, f a b)) ≡ₚ l2 ≫= (λ b, l1 ≫= (λ a, f a b)).
Proof.
  induction l1 as [|a l1 IH]; csimpl.
  - induction l2 as [|b l2 IH2]; [done|]. csimpl. by rewrite <-IH2.
  - rewrite IH. symmetry. apply (bind_app_Permutation (f a)).
Qed.

Lemma WHERE_fmap {A B} (f : A → B) (cond : B → tribool) rows :
  WHERE cond (f <$> rows) = f <$> WHERE (cond ∘ f) rows.
Proof.
  induction rows as [|r rows IH]; [done|].
  rewrite fmap_cons, !WHERE_all_cons, IH. simpl. by destruct (holds _).
Qed.

Global Instance WHERE_Permutation {A} (cond : A → tribool) :
  Proper ((≡ₚ) ==> (≡ₚ)) (WHERE cond).
Proof. intros rows1 rows2 Hrows. unfold WHERE. by rewrite Hrows. Qed.

Lemma INNER_JOIN_bind {A B C} (left : list A) (right : list B) on
    (k : A * B → list C) :
  INNER_JOIN left right on ≫= k
    = left ≫= (λ a, WHERE (on a) right ≫= (λ b, k (a, b))).
Proof.
  unfold INNER_JOIN. rewrite list_bind_assoc. apply list_bind_ext; [|done].
  intros a. rewrite list_bind_assoc. apply list_bind_ext; [|done].
  intros b. apply bind_singleton.
Qed.

(** The five-way join as five nested loops. *)
Lemma tournament_join_nested {C} db (k : tournament_row → list C) :
  tournament_join db ≫= k
    = table_Post db ≫= λ q,
      WHERE (λ a, Post.id q =ₛ Post.parent_id a) (table_Post db) ≫= λ a1,
      WHERE (λ a, Post.id q =ₛ Post.parent_id a) (table_Post db) ≫= λ a2,
      WHERE (λ u, se_user.id u =ₛ Post.owner_user_id a1) (table_se_user db)
        ≫= λ u1,
      WHERE (λ u, se_user.id u =ₛ Post.owner_user_id a2) (table_se_user db)
        ≫= λ u2, k (q, a1, a2, u1, u2).
Proof. unfold tournament_join. by rewrite !INNER_JOIN_bind. Qed.

Lemma tournament_join_mirror db :
  tournament_join db ≡ₚ mirror <$> tournament_join db.
Proof.
  rewrite <-(list_fmap_id (tournament_join db)) at 1.
  rewrite !list_fmap_as_bind, !tournament_join_nested.
  apply bind_Permutation_ext. intros q.
  etrans; [apply bind_exchange|].
  apply bind_Permutation_ext. intros a1.
  apply bind_Permutation_ext. intros a2.
  apply bind_exchange.
Qed.

Lemma tournament_rows_mirror timebin db :
  tournament_rows timebin db ≡ₚ mirror <$> tournament_rows timebin db.
Proof.
  unfold tournament_rows, tournament_rows_within, tournament_rows_all.
  destruct timebin as [timebin|]; rewrite !ORDER_BY_Permutation.
  - rewrite (tournament_join_mirror db) at 1. rewrite WHERE_fmap.
    apply fmap_Permutation. unfold WHERE.
    erewrite list_filter_iff; [done|].
    intros [[[[q a1] a2] u1] u2]. simpl. rewrite !holds_and. tauto.
  - apply tournament_join_mirror.
Qed.

(** X17: the output of [users_by_tournament] is its own mirror image: every
    pair is yielded exactly as often as the pair with its two sides
    exchanged. *)
Theorem users_by_tournament_mirrored {R} (cursor : Cursor R)
    (timebin : option TimeBin) :
  users_by_tournament cursor timebin
    ≡ₚ prod_swap <$> users_by_tournament cursor timebin.
Proof.
  rewrite users_by_tournament_rows.
  rewrite (tournament_rows_mirror timebin (connection cursor)) at 1.
  rewrite <-!list_fmap_compose. apply Permutation_refl'.
  apply list_fmap_ext. by intros i [[[[q a1] a2] u1] u2] _.
Qed.

(** ** Empty time bins *)

(** X18: a time bin whose start is not before its end empties every query
    that filters by it: [posts_by_user], [users_in_post] and
    [users_by_tournament] yield nothing. *)
Theorem empty_timebin_yields_nothing {R} (cursor : Cursor R)
    (timebin : TimeBin) (user_id post_id : Z) :
  start timebin >= end_ timebin →
  posts_by_user cursor user_id (Some timebin) = []
  ∧ users_in_post cursor post_id (Some timebin) = []
  ∧ users_by_tournament cursor (Some timebin) = [].
Proof.
  intros Hbin.
  assert (∀ date, ¬ within (start timebin) (end_ timebin) date) as Hout.
  { intros date (d & _ & ?). lia. }
  split_and!.
  - rewrite posts_by_user_rows. unfold posts_by_user_timebin_query, SELECT.
    rewrite WHERE_none; [done|].
    intros p _ [_ ?]%holds_owner_within. by eapply Hout.
  - apply elem_of_nil_inv. intros uid.
    rewrite elem_of_users_in_post. intros (a & _ & _ & _ & _ & _ & ?).
    by eapply Hout.
  - rewrite users_by_tournament_rows.
    unfold tournament_rows, tournament_rows_within.
    rewrite WHERE_none; [done|].
    intros [[[[q a1] a2] u1] u2] _ [? _]%holds_both_within. by eapply Hout.
Qed.

Lemma empty_timebin_yields_nothing_witness :
  posts_by_user (fresh_cursor forum) 1 (Some {| start := 3; end_ := 2 |}) = []
  ∧ users_in_post (fresh_cursor forum) 10 (Some {| start := 3; end_ := 2 |}) = []
  ∧ users_by_tournament (fresh_cursor forum) (Some {| start := 3; end_ := 2 |}) = [].
Proof.
  apply (empty_timebin_yields_nothing (fresh_cursor forum)
           {| start := 3; end_ := 2 |} 1 10).
  simpl. lia.
Defined.

(** ** How many pairs *)

Lemma length_bind {A B} (f : A → list B) (l : list A) :
  length (l ≫= f) = sum_list_with (λ x, length (f x)) l.
Proof.
  induction l as [|x l IH]; [done|]. csimpl. by rewrite length_app, IH.
Qed.

Lemma sum_list_with_ext {A} (f g : A → nat) (l : list A) :
  (∀ x, f x = g x) → sum_list_with f l = sum_list_with g l.
Proof.
  intros Hfg. induction l as [|x l IH]; simpl; [done|]. by rewrite Hfg, IH.
Qed.

Lemma sum_list_with_mul_l {A} (c : nat) (f : A → nat) (l : list A) :
  sum_list_with (λ x, c * f x)%nat l = (c * sum_list_with f l)%nat.
Proof. induction l as [|x l IH]; simpl; [lia|]. rewrite IH. lia. Qed.

Lemma sum_list_with_mul_r {A} (c : nat) (f : A → nat) (l : list A) :
  sum_list_with (λ x, f x * c)%nat l = (sum_list_with f l * c)%nat.
Proof. induction l as [|x l IH]; simpl; [lia|]. rewrite IH. lia. Qed.

Lemma sum_list_with_ones {A} (l : list A) :
  sum_list_with (λ _, 1%nat) l = length l.
Proof. induction l as [|x l IH]; simpl; [done|]. by rewrite IH. Qed.

Lemma length_entries db q :
  length (entries db q)
    = sum_list_with
        (λ a, length (WHERE (λ u, se_user.id u =ₛ Post.owner_user_id a)
                        (table_se_user db)))
        (WHERE (λ a, Post.id q =ₛ Post.parent_id a) (table_Post db)).
Proof.
  unfold entries, INNER_JOIN. rewrite length_bind.
  apply sum_list_with_ext. intros a.
  by rewrite <-(list_fmap_as_bind (λ b, (a, b))), length_fmap.
Qed.

Lemma length_tournament_join db :
  length (tournament_join db)
    = sum_list_with (λ q, length (entries db q) * length (entries db q))%nat
        (table_Post db).
Proof.
  rewrite <-(list_fmap_id (tournament_join db)), list_fmap_as_bind.
  rewrite tournament_join_nested, length_bind.
  apply sum_list_with_ext. intros q. rewrite length_entries.
  set (W := WHERE _ (table_Post db)).
  set (U := λ a, WHERE (λ u, se_user.id u =ₛ Post.owner_user_id a)
                   (table_se_user db)).
  rewrite length_bind.
  rewrite <-sum_list_with_mul_r. apply sum_list_with_ext. intros a1.
  rewrite length_bind.
  rewrite <-sum_list_with_mul_l. apply sum_list_with_ext. intros a2.
  rewrite length_bind.
  rewrite (sum_list_with_ext _ (λ _, 1 * length (U a2))%nat).
  - by rewrite sum_list_with_mul_r, sum_list_with_ones.
  - intros u1. rewrite length_bind. fold (U a2).
    simpl. rewrite sum_list_with_ones. lia.
Qed.

(** X19: without a time bin, [users_by_tournament] yields, for every post
    [q] of the table, as many pairs as the square of the number of
    competitors joined to [q]: a question with n answers by registered users
    contributes n * n pairs, a post without children none. *)
Theorem users_by_tournament_count {R} (cursor : Cursor R) :
  length (users_by_tournament cursor None)
    = sum_list_with
        (λ q, length (entries (connection cursor) q)
              * length (entries (connection cursor) q))%nat
        (table_Post (connection cursor)).
Proof.
  rewrite users_by_tournament_rows, length_fmap.
  unfold tournament_rows, tournament_rows_all.
  rewrite ORDER_BY_Permutation. apply length_tournament_join.
Qed.

(** ** cau, continued *)

(** In a namespace that binds both stray names, [cau] asked for user 1
    answers for the user [post_id] names. *)
Example cau_answers_for_post_id :
  cau_in (<["cur" := PyCursor]> (<["post_id" := PyInt 2]> module_globals))
    (fresh_cursor forum) 1 (Some {| start := 0; end_ := 4 |})
    = Return (Some (Some 5)).
Proof. reflexivity. Qed.

Lemma load_name_ext (locals1 locals2 globals : gmap string pyval) name :
  locals1 !! name = locals2 !! name →
  load_name locals1 globals name = load_name locals2 globals name.
Proof. intros Heq. unfold load_name. by rewrite Heq. Qed.

(** X20: with a time bin the outcome of [cau] does not depend on the user
    id it is given, whatever the module's namespace binds: the body reads
    [post_id] where a user id is due and never reads [user_id]. *)
Theorem cau_timebin_ignores_user_id {R} (globals : gmap string pyval)
    (cursor : Cursor R) (user_id user_id' : Z) (timebin : TimeBin) :
  cau_in globals cursor user_id (Some timebin)
    = cau_in globals cursor user_id' (Some timebin).
Proof.
  unfold cau_in. cbn zeta.
  set (locals := <["query" := _]> _). set (locals' := <["query" := _]> _).
  assert (∀ name, name ≠ "user_id" → locals !! name = locals' !! name)
    as Hsame.
  { intros name Hname. unfold locals, locals'.
    rewrite !lookup_insert. by repeat case_decide. }
  rewrite !(load_name_ext locals locals') by by apply Hsame.
  done.
Qed.

(** ** Generators *)

Lemma drain_converted {A B} (g : generator B) (f : A → B) (conv : A → tuple)
    (rows : list A) :
  (∀ r, g (conv r) = Some (f r)) →
  drain g (conv <$> rows) = (Some (f <$> rows), []).
Proof.
  intros Hg. induction rows as [|r rows IH]; [done|].
  rewrite !fmap_cons. cbn [drain]. by rewrite Hg, IH.
Qed.

Lemma list_of_execute {R A B} (cursor : Cursor R) (query : Database → list A)
    (conv : A → tuple) (g : generator B) (f : A → B) :
  (∀ r, g (conv r) = Some (f r)) →
  list_of g (execute (λ db, conv <$> query db) cursor)
    = (Some (f <$> query (connection cursor)), exhausted cursor).
Proof.
  intros Hg. unfold list_of, execute. cbn [result_set connection].
  by rewrite (drain_converted g f).
Qed.

Lemma drain_complete {A} (g : generator A) rows xs rest :
  drain g rows = (Some xs, rest) → rest = [].
Proof.
  revert xs. induction rows as [|r rows IH]; intros xs; cbn [drain].
  - by intros [= _ <-].
  - destruct (g r); [|done]. destruct (drain g rows) as [[ys|] rest'].
    + intros [= _ <-]. by eapply IH.
    + done.
Qed.

(** X21: advanced to its end right after the call, the generator of each
    function yields the sequence the function is credited with above, raises
    no IndexError, and leaves no row in the cursor. *)
Theorem generators_agree {R} (cursor : Cursor R) (post_type : option Z)
    (timebin : TimeBin) (user_id threshold post_id : Z)
    (optional : option TimeBin) :
  collect (Lazy.posts_by_type cursor post_type)
    = (Some (posts_by_type cursor post_type), exhausted cursor)
  ∧ collect (Lazy.posts_within_timebin cursor timebin)
    = (Some (posts_within_timebin cursor timebin), exhausted cursor)
  ∧ collect (Lazy.posts_by_user cursor user_id optional)
    = (Some (posts_by_user cursor user_id optional), exhausted cursor)
  ∧ collect (Lazy.users_above_threshold cursor threshold)
    = (Some (users_above_threshold cursor threshold), exhausted cursor)
  ∧ collect (Lazy.users_in_post cursor post_id optional)
    = (Some (users_in_post cursor post_id optional), exhausted cursor)
  ∧ collect (Lazy.users_by_tournament cursor optional)
    = (Some (users_by_tournament cursor optional), exhausted cursor).
Proof.
  unfold collect. split_and!.
  - unfold Lazy.posts_by_type, posts_by_type, iterate. cbn [fst snd].
    by apply list_of_execute; intros [r0 r1].
  - unfold Lazy.posts_within_timebin, posts_within_timebin, iterate.
    cbn [fst snd]. by apply list_of_execute.
  - unfold Lazy.posts_by_user, posts_by_user, iterate. cbn [fst snd].
    destruct optional; by apply list_of_execute.
  - unfold Lazy.users_above_threshold, users_above_threshold, iterate.
    cbn [fst snd]. by apply list_of_execute.
  - unfold Lazy.users_in_post, users_in_post, iterate. cbn [fst snd].
    destruct optional; by apply list_of_execute.
  - unfold Lazy.users_by_tournament, users_by_tournament, iterate.
    cbn [fst snd].
    destruct optional; by apply list_of_execute; intros [[[r0 r1] r2] r3].
Qed.

(** X22: a generator is good for one pass: once one has run to its end
    without error, the cursor holds no row, and advancing it again, or any
    other generator bound to the same cursor, yields nothing. *)
Theorem generator_single_pass {A B} (g : generator A) (g' : generator B)
    (cursor : Cursor tuple) (xs : list A) :
  (list_of g cursor).1 = Some xs →
  result_set (list_of g cursor).2 = []
  ∧ (list_of g' (list_of g cursor).2).1 = Some [].
Proof.
  unfold list_of. destruct (drain g (result_set cursor)) as [ys rest] eqn:Hd.
  cbn [fst snd result_set]. intros ->.
  apply drain_complete in Hd as ->. done.
Qed.

Lemma generator_single_pass_witness :
  let call := Lazy.posts_by_user (fresh_cursor forum) 1 None in
  (list_of call.1 call.2).1 = Some [Some 11]
  ∧ result_set (list_of call.1 call.2).2 = []
  ∧ (list_of call.1 (list_of call.1 call.2).2).1 = Some [].
Proof.
  split; [reflexivity|].
  apply (generator_single_pass
           (Lazy.posts_by_user (fresh_cursor forum) 1 None).1
           (Lazy.posts_by_user (fresh_cursor forum) 1 None).1
           (Lazy.posts_by_user (fresh_cursor forum) 1 None).2 [Some 11]).
  reflexivity.
Defined.

(** X23: a generator reads whatever the cursor holds when it is advanced.
    The generator of [posts_within_timebin], advanced after another function
    ran its query on the same cursor, yields the first column of that
    query, user ids for [users_above_threshold] and for
    [users_by_tournament], and none of its own post ids; the other
    function's generator then finds the cursor empty. *)
Theorem generator_follows_cursor {R} (cursor : Cursor R) (timebin : TimeBin)
    (threshold : Z) (optional : option TimeBin) :
  let posts := Lazy.posts_within_timebin cursor timebin in
  let users := Lazy.users_above_threshold posts.2 threshold in
  let pairs := Lazy.users_by_tournament posts.2 optional in
  list_of posts.1 users.2
    = (Some (users_above_threshold cursor threshold), exhausted cursor)
  ∧ list_of users.1 (list_of posts.1 users.2).2 = (Some [], exhausted cursor)
  ∧ list_of posts.1 pairs.2
    = (Some ((λ pair, pair.1.1) <$> users_by_tournament cursor optional),
       exhausted cursor).
Proof.
  cbn zeta. unfold Lazy.posts_within_timebin. cbn [fst snd]. split_and!.
  - unfold Lazy.users_above_threshold. cbn [fst snd].
    etrans; [apply (list_of_execute _ _ row1 _ id); done|].
    unfold users_above_threshold, iterate, exhausted. cbn.
    by rewrite list_fmap_id, fmap_result.
  - unfold Lazy.users_above_threshold. cbn [fst snd].
    by rewrite (list_of_execute _ _ row1 _ id).
  - unfold Lazy.users_by_tournament. cbn [fst snd].
    destruct optional;
      (etrans; [apply (list_of_execute _ _ row4 _ (λ r, r.1.1.1));
                by intros [[[r0 r1] r2] r3]|]);
      unfold users_by_tournament, iterate, exhausted; cbn;
      rewrite <-list_fmap_compose; do 2 f_equal; apply list_fmap_ext;
      by intros i [[[r0 r1] r2] r3] _.
Qed.

(** X24: a generator that reads two columns fails on rows of one: the
    generator of [posts_by_type], advanced after [users_above_threshold] ran
    a query with at least one result on the same cursor, raises IndexError
    at the first row and yields nothing; that row is gone from the cursor,
    the others are still there. *)
Theorem generator_width_mismatch {R} (cursor : Cursor R)
    (post_type : option Z) (threshold : Z) :
  users_above_threshold cursor threshold ≠ [] →
  let posts := Lazy.posts_by_type cursor post_type in
  let users := Lazy.users_above_threshold posts.2 threshold in
  (list_of posts.1 users.2).1 = None
  ∧ result_set (list_of posts.1 users.2).2
    = tail (row1 <$> users_above_threshold cursor threshold).
Proof.
  intros Hsome. cbn zeta.
  unfold Lazy.users_above_threshold, Lazy.posts_by_type, list_of,
    users_above_threshold, iterate in *.
  unfold execute in *.
  cbn [fst snd result_set connection] in *. rewrite fmap_result in *.
  destruct (users_above_threshold_query threshold (connection cursor))
    as [|user users]; [done|].
  rewrite !fmap_cons. by cbn [drain row1 item].
Qed.

Lemma generator_width_mismatch_witness :
  let posts := Lazy.posts_by_type (fresh_cursor forum) None in
  let users := Lazy.users_above_threshold posts.2 50 in
  (list_of posts.1 users.2).1 = None
  ∧ result_set (list_of posts.1 users.2).2
    = tail (row1 <$> users_above_threshold (fresh_cursor forum) 50).
Proof.
  apply (generator_width_mismatch (fresh_cursor forum) None 50). done.
Defined.
